(** * GeoQuestFHE: the encrypted-location ledger of contracts/geo_quest_fhe.sol

    A shallow embedding of the Solidity contract [GeoQuestFHE] and the
    properties of its location lifecycle: creation of a location from two
    encrypted coordinates, its one-time verification from oracle-signed
    clear values, and the proximity test on ciphertexts.

    Conventions.
    - [uint32], [uint256] and [address] values are integers ([Z]); every
      place where the EVM checks or truncates a width is written out.
    - [mapping(string => LocationData)] is a finite map read with the
      all-zero record as default, as storage reads do.
    - A function body is a computation in the monad [M] (contract state
      plus revert); a transaction that reverts leaves the state it started
      from ([exec]).
    - The FHE library is an external collaborator of the contract: it is
      the class [FHE.Engine], and every result is stated for an arbitrary
      engine.  [ClearEngine] is a small executable engine used to run the
      contract on concrete inputs. *)

From stdpp Require Import gmap strings list fin_maps.
From Stdlib Require Import ZArith Lia.
From Stdlib.Strings Require Import Byte.

Local Open Scope string_scope.
Local Open Scope list_scope.
Local Open Scope Z_scope.

(** ** Solidity values *)

Definition bytes := list byte.
Definition bytes32 := Z.
Definition address := Z.

Definition uint32_modulus : Z := 2 ^ 32.
Definition uint256_modulus : Z := 2 ^ 256.

(** Why a call reverts. [Error msg] is a failed [require(_, msg)];
    [Panic 0x11] is the checked-arithmetic overflow of Solidity 0.8; the
    last three are reverts raised below the contract (inside the FHE
    library or the ABI decoder). *)
Inductive revert_reason : Type :=
| Error (msg : string)
| Panic (code : Z)
| InvalidInputProof
| InvalidSignatures
| AbiDecodeError.

Inductive result (A : Type) : Type :=
| Ok (a : A)
| Revert (e : revert_reason).
Arguments Ok {A} a.
Arguments Revert {A} e.

(** The revert messages of the contract, under the names the
    specification gives to the error kinds. *)
Definition DuplicateId : revert_reason := Error "Location already exists".
Definition NotFound : revert_reason := Error "Location does not exist".
Definition AlreadyVerified : revert_reason := Error "Location already verified".
Definition NotVerified : revert_reason := Error "Location not verified".
Definition InvalidEncryptedLatitude : revert_reason := Error "Invalid encrypted latitude".
Definition InvalidEncryptedLongitude : revert_reason := Error "Invalid encrypted longitude".
Definition ArithmeticOverflow : revert_reason := Panic 17.

(** [a * b] on [uint256]: checked, as every arithmetic operation outside
    an [unchecked] block. *)
Definition checked_mul (a b : Z) : result Z :=
  if a * b <? uint256_modulus then Ok (a * b) else Revert ArithmeticOverflow.

(** Big-endian value of a byte sequence. *)
Definition be_value (bs : bytes) : Z :=
  fold_left (fun acc b => acc * 256 + Z.of_N (Byte.to_N b)) bs 0.

(** [abi.decode(data, (uint32))]: reads the first 32-byte word; reverts
    when the data is shorter than a word or the word is not a [uint32]. *)
Definition abi_decode_uint32 (data : bytes) : result Z :=
  if (length data <? 32)%nat then Revert AbiDecodeError
  else
    let w := be_value (take 32 data) in
    if w <? uint32_modulus then Ok w else Revert AbiDecodeError.

(** ** The FHE library, as the contract uses it *)

Module FHE.

(** The operations of [FHE] that the contract calls; the library
    (@fhevm/solidity) is imported by the contract and is not part of
    it, so it is a parameter of the development.  [clear] is the value
    a ciphertext handle encrypts; it is a specification device and no
    function of the contract reads it.  The laws are the meaning of the
    operations on [euint32]: unchecked arithmetic on 32-bit values, a
    result being again a [euint32], hence reduced modulo [2^32].
    [euint32 v] is the conversion [FHE.euint32(v)] of a [uint256],
    which keeps the low 32 bits as a conversion to [uint32] does. *)
Class Engine : Type := {
  euint32_handle : Type;
  externalEuint32_handle : Type;
  (** the zero handle, which is what an unwritten storage slot holds *)
  uninitialized : euint32_handle;
  (** [None]: the input proof is rejected and the call reverts *)
  fromExternal : externalEuint32_handle -> bytes -> option euint32_handle;
  isInitialized : euint32_handle -> bool;
  toBytes32 : euint32_handle -> bytes32;
  (** [false]: the signatures are rejected and the call reverts *)
  checkSignatures : list bytes32 -> bytes -> bytes -> bool;
  sub : euint32_handle -> euint32_handle -> euint32_handle;
  mul : euint32_handle -> euint32_handle -> euint32_handle;
  add : euint32_handle -> euint32_handle -> euint32_handle;
  (** conversion of a clear integer to a [euint32] *)
  euint32 : Z -> euint32_handle;
  (** the comparison, as the boolean the contract returns *)
  leq : euint32_handle -> euint32_handle -> bool;
  clear : euint32_handle -> Z;
  clear_sub : forall a b, clear (sub a b) = (clear a - clear b) mod uint32_modulus;
  clear_mul : forall a b, clear (mul a b) = (clear a * clear b) mod uint32_modulus;
  clear_add : forall a b, clear (add a b) = (clear a + clear b) mod uint32_modulus;
  clear_euint32 : forall v, clear (euint32 v) = v mod uint32_modulus;
  leq_spec : forall a b, leq a b = (clear a <=? clear b)
}.

End FHE.

Abbreviation euint32 := FHE.euint32_handle.
Abbreviation externalEuint32 := FHE.externalEuint32_handle.

(** ** Contract storage *)

Section Contract.

Context {E : FHE.Engine}.

Record LocationData : Type := mkLocationData {
  locationId : string;
  encryptedLatitude : euint32;
  encryptedLongitude : euint32;
  publicRadius : Z;
  description : string;
  creator : address;
  timestamp : Z;
  isVerified : bool;
  decryptedLatitude : Z;
  decryptedLongitude : Z
}.

(** The value of a storage slot that was never written. *)
Definition zeroLocation : LocationData :=
  mkLocationData "" FHE.uninitialized FHE.uninitialized 0 "" 0 0 false 0 0.

Inductive Event : Type :=
| LocationCreated (id : string) (who : address)
| LocationVerified (id : string) (lat lng : Z).

(** Calls into the access-control list of the FHE library. *)
Inductive AclOp : Type :=
| AllowThis (h : bytes32)
| MakePubliclyDecryptable (h : bytes32).

Record State : Type := mkState {
  locationData : gmap string LocationData;
  locationIds : list string;
  events : list Event;
  acl : list AclOp
}.

Definition initial : State := mkState ∅ [] [] [].

(** [locationData[id]] as an rvalue. *)
Definition location (s : State) (id : string) : LocationData :=
  default zeroLocation (locationData s !! id).

Definition set_location (id : string) (r : LocationData) (s : State) : State :=
  mkState (<[id := r]> (locationData s)) (locationIds s) (events s) (acl s).

Definition set_decryptedLatitude (v : Z) (r : LocationData) : LocationData :=
  mkLocationData (locationId r) (encryptedLatitude r) (encryptedLongitude r)
    (publicRadius r) (description r) (creator r) (timestamp r)
    (isVerified r) v (decryptedLongitude r).

Definition set_decryptedLongitude (v : Z) (r : LocationData) : LocationData :=
  mkLocationData (locationId r) (encryptedLatitude r) (encryptedLongitude r)
    (publicRadius r) (description r) (creator r) (timestamp r)
    (isVerified r) (decryptedLatitude r) v.

Definition set_isVerified (b : bool) (r : LocationData) : LocationData :=
  mkLocationData (locationId r) (encryptedLatitude r) (encryptedLongitude r)
    (publicRadius r) (description r) (creator r) (timestamp r)
    b (decryptedLatitude r) (decryptedLongitude r).

(** [bytes(s).length] *)
Definition bytes_length (s : string) : nat := String.length s.

(** ** The monad of function bodies *)

Definition M (A : Type) : Type := State -> result (A * State).

Definition ret {A} (a : A) : M A := fun s => Ok (a, s).

Definition bind {A B} (m : M A) (k : A -> M B) : M B :=
  fun s => match m s with
           | Ok (a, s') => k a s'
           | Revert e => Revert e
           end.

Definition revert {A} (e : revert_reason) : M A := fun _ => Revert e.

Definition require (cond : bool) (msg : string) : M unit :=
  if cond then ret tt else revert (Error msg).

Definition sload {A} (f : State -> A) : M A := fun s => Ok (f s, s).

Definition sstore (f : State -> State) : M unit := fun s => Ok (tt, f s).

Definition lift {A} (r : result A) : M A :=
  fun s => match r with Ok a => Ok (a, s) | Revert e => Revert e end.

Definition emit (ev : Event) : M unit :=
  sstore (fun s => mkState (locationData s) (locationIds s) (events s ++ [ev]) (acl s)).

Definition push_locationId (id : string) : M unit :=
  sstore (fun s => mkState (locationData s) (locationIds s ++ [id]) (events s) (acl s)).

Definition acl_call (op : AclOp) : M unit :=
  sstore (fun s => mkState (locationData s) (locationIds s) (events s) (acl s ++ [op])).

(** [locationData[id].f = ...] *)
Definition update_location (id : string) (f : LocationData -> LocationData) : M unit :=
  sstore (fun s => set_location id (f (location s id)) s).

Definition FHE_fromExternal (h : externalEuint32) (proof : bytes) : M euint32 :=
  match FHE.fromExternal h proof with
  | Some c => ret c
  | None => revert InvalidInputProof
  end.

Definition FHE_checkSignatures (cts : list bytes32) (cleartexts proof : bytes) : M unit :=
  if FHE.checkSignatures cts cleartexts proof then ret tt else revert InvalidSignatures.

Definition FHE_allowThis (h : euint32) : M unit :=
  acl_call (AllowThis (FHE.toBytes32 h)).

Definition FHE_makePubliclyDecryptable (h : euint32) : M unit :=
  acl_call (MakePubliclyDecryptable (FHE.toBytes32 h)).

End Contract.

Declare Scope sol_scope.
Delimit Scope sol_scope with sol.
Notation "'let*' x ':=' m 'in' k" := (bind m (fun x => k))
  (at level 10, x name, m at level 100, k at level 200) : sol_scope.
Notation "m ';;' k" := (bind m (fun _ => k))
  (at level 100, k at level 200, right associativity) : sol_scope.

(** ** The functions of the contract *)

Section Functions.

Context {E : FHE.Engine}.
Local Open Scope sol_scope.

Definition createLocation (msg_sender : address) (block_timestamp : Z)
    (id : string) (encLat encLng : externalEuint32)
    (latitudeProof longitudeProof : bytes)
    (radius : Z) (descr : string) : M unit :=
  let* id0 := sload (fun s => locationId (location s id)) in
  require (bytes_length id0 =? 0)%nat "Location already exists" ;;
  let* lat0 := FHE_fromExternal encLat latitudeProof in
  require (FHE.isInitialized lat0) "Invalid encrypted latitude" ;;
  let* lng0 := FHE_fromExternal encLng longitudeProof in
  require (FHE.isInitialized lng0) "Invalid encrypted longitude" ;;
  let* lat := FHE_fromExternal encLat latitudeProof in
  let* lng := FHE_fromExternal encLng longitudeProof in
  sstore (fun s => set_location id
    {| locationId := id;
       encryptedLatitude := lat;
       encryptedLongitude := lng;
       publicRadius := radius;
       description := descr;
       creator := msg_sender;
       timestamp := block_timestamp;
       isVerified := false;
       decryptedLatitude := 0;
       decryptedLongitude := 0 |} s) ;;
  let* h := sload (fun s => encryptedLatitude (location s id)) in
  FHE_allowThis h ;;
  let* h := sload (fun s => encryptedLongitude (location s id)) in
  FHE_allowThis h ;;
  let* h := sload (fun s => encryptedLatitude (location s id)) in
  FHE_makePubliclyDecryptable h ;;
  let* h := sload (fun s => encryptedLongitude (location s id)) in
  FHE_makePubliclyDecryptable h ;;
  push_locationId id ;;
  emit (LocationCreated id msg_sender).

Definition verifyLocation (id : string)
    (abiEncodedClearLatitude abiEncodedClearLongitude : bytes)
    (latitudeProof longitudeProof : bytes) : M unit :=
  let* id0 := sload (fun s => locationId (location s id)) in
  require (0 <? bytes_length id0)%nat "Location does not exist" ;;
  let* v := sload (fun s => isVerified (location s id)) in
  require (negb v) "Location already verified" ;;
  let* c0 := sload (fun s => FHE.toBytes32 (encryptedLatitude (location s id))) in
  let* c1 := sload (fun s => FHE.toBytes32 (encryptedLongitude (location s id))) in
  let cts := [c0; c1] in
  FHE_checkSignatures cts abiEncodedClearLatitude latitudeProof ;;
  FHE_checkSignatures cts abiEncodedClearLongitude longitudeProof ;;
  let* decodedLatitude := lift (abi_decode_uint32 abiEncodedClearLatitude) in
  let* decodedLongitude := lift (abi_decode_uint32 abiEncodedClearLongitude) in
  update_location id (set_decryptedLatitude decodedLatitude) ;;
  update_location id (set_decryptedLongitude decodedLongitude) ;;
  update_location id (set_isVerified true) ;;
  emit (LocationVerified id decodedLatitude decodedLongitude).

Definition checkLocationProximity (id : string)
    (encryptedUserLatitude encryptedUserLongitude : externalEuint32)
    (latitudeProof longitudeProof : bytes) : M bool :=
  let* id0 := sload (fun s => locationId (location s id)) in
  require (0 <? bytes_length id0)%nat "Location does not exist" ;;
  let* v := sload (fun s => isVerified (location s id)) in
  require v "Location not verified" ;;
  let* userLatitude := FHE_fromExternal encryptedUserLatitude latitudeProof in
  let* userLongitude := FHE_fromExternal encryptedUserLongitude longitudeProof in
  let* centerLatitude := sload (fun s => encryptedLatitude (location s id)) in
  let latitudeDiff := FHE.sub userLatitude centerLatitude in
  let* centerLongitude := sload (fun s => encryptedLongitude (location s id)) in
  let longitudeDiff := FHE.sub userLongitude centerLongitude in
  let distanceSquared :=
    FHE.add (FHE.mul latitudeDiff latitudeDiff)
            (FHE.mul longitudeDiff longitudeDiff) in
  let* r := sload (fun s => publicRadius (location s id)) in
  let* rr := lift (checked_mul r r) in
  let radiusSquared := FHE.euint32 rr in
  ret (FHE.leq distanceSquared radiusSquared).

(** The tuple [getLocationData] returns:
    (description, creator, timestamp, isVerified, publicRadius). *)
Definition LocationView : Type := string * address * Z * bool * Z.

Definition getLocationData (id : string) : M LocationView :=
  let* id0 := sload (fun s => locationId (location s id)) in
  require (0 <? bytes_length id0)%nat "Location does not exist" ;;
  let* data := sload (fun s => location s id) in
  ret (description data, creator data, timestamp data, isVerified data,
       publicRadius data).

Definition getAllLocationIds : M (list string) :=
  sload locationIds.

Definition isAvailable : bool := true.

(** The getters that [public] generates for the two state variables:
    [locationData(id)] returns every member of the record, and
    [locationIds(i)] one element, with the bounds check of array access
    ([Panic 0x32]). *)
Definition locationData_getter (id : string) : M LocationData :=
  sload (fun s => location s id).

Definition locationIds_getter (i : nat) : M string :=
  let* ids := sload locationIds in
  match ids !! i with
  | Some id => ret id
  | None => revert (Panic 50)
  end.

(** ** Transactions and histories *)

Inductive Call : Type :=
| CreateLocation (msg_sender : address) (block_timestamp : Z)
    (id : string) (encLat encLng : externalEuint32)
    (latitudeProof longitudeProof : bytes) (radius : Z) (descr : string)
| VerifyLocation (id : string) (clearLat clearLng latitudeProof longitudeProof : bytes)
| CheckLocationProximity (id : string) (encLat encLng : externalEuint32)
    (latitudeProof longitudeProof : bytes)
| GetLocationData (id : string)
| GetAllLocationIds
| IsAvailable
| LocationDataOf (id : string)
| LocationIdAt (i : nat).

Inductive Return : Type :=
| RUnit
| RBool (b : bool)
| RView (v : LocationView)
| RIds (ids : list string)
| RRecord (r : LocationData)
| RString (s : string).

Definition dispatch (c : Call) : M Return :=
  match c with
  | CreateLocation snd ts id la lo pla plo r d =>
      createLocation snd ts id la lo pla plo r d ;; ret RUnit
  | VerifyLocation id cla clo pla plo =>
      verifyLocation id cla clo pla plo ;; ret RUnit
  | CheckLocationProximity id la lo pla plo =>
      let* b := checkLocationProximity id la lo pla plo in ret (RBool b)
  | GetLocationData id =>
      let* v := getLocationData id in ret (RView v)
  | GetAllLocationIds =>
      let* l := getAllLocationIds in ret (RIds l)
  | IsAvailable => ret (RBool isAvailable)
  | LocationDataOf id =>
      let* r := locationData_getter id in ret (RRecord r)
  | LocationIdAt i =>
      let* x := locationIds_getter i in ret (RString x)
  end.

(** One call as a transaction: the writes of a call that reverts are
    discarded. *)
Definition exec (s : State) (c : Call) : State * result Return :=
  match dispatch c s with
  | Ok (v, s') => (s', Ok v)
  | Revert e => (s, Revert e)
  end.

Definition step (s : State) (c : Call) : State := fst (exec s c).

Definition outcome (s : State) (c : Call) : result Return := snd (exec s c).

(** The state after a history of calls. *)
Definition run (s : State) (cs : list Call) : State := fold_left step cs s.

End Functions.

(** ** The effects of the calls, named

    The states that successful calls leave, and the notions the
    properties are stated with. *)

Section Effects.

Context {E : FHE.Engine}.

(** The record a successful [createLocation] stores. *)
Definition new_location (msg_sender : address) (block_timestamp : Z) (id : string)
    (lat lng : euint32) (radius : Z) (descr : string) : LocationData :=
  mkLocationData id lat lng radius descr msg_sender block_timestamp false 0 0.

(** The state a successful [createLocation] leaves. *)
Definition created (msg_sender : address) (block_timestamp : Z) (id : string)
    (lat lng : euint32) (radius : Z) (descr : string) (s : State) : State :=
  mkState
    (<[id := new_location msg_sender block_timestamp id lat lng radius descr]>
       (locationData s))
    (locationIds s ++ [id])
    (events s ++ [LocationCreated id msg_sender])
    ((((acl s ++ [AllowThis (FHE.toBytes32 lat)])
         ++ [AllowThis (FHE.toBytes32 lng)])
        ++ [MakePubliclyDecryptable (FHE.toBytes32 lat)])
       ++ [MakePubliclyDecryptable (FHE.toBytes32 lng)]).

(** The record and the state a successful [verifyLocation] leaves. *)
Definition verified_location (lat lng : Z) (r : LocationData) : LocationData :=
  set_isVerified true (set_decryptedLongitude lng (set_decryptedLatitude lat r)).

Definition verified (id : string) (lat lng : Z) (s : State) : State :=
  mkState
    (<[id := verified_location lat lng (location s id)]> (locationData s))
    (locationIds s)
    (events s ++ [LocationVerified id lat lng])
    (acl s).

(** The members written at creation. *)
Definition registration (r : LocationData)
  : string * euint32 * euint32 * Z * string * address * Z :=
  (locationId r, encryptedLatitude r, encryptedLongitude r, publicRadius r,
   description r, creator r, timestamp r).


(** What a call can do to the state: nothing, create a location under
    an id whose slot holds the empty id, or verify an existing location
    that is not verified. *)
Inductive effect (s : State) : Call -> State -> Prop :=
| effect_none c : effect s c s
| effect_created snd ts id la lo pla plo r d lat lng :
    locationId (location s id) = "" ->
    FHE.fromExternal la pla = Some lat ->
    FHE.isInitialized lat = true ->
    FHE.fromExternal lo plo = Some lng ->
    FHE.isInitialized lng = true ->
    effect s (CreateLocation snd ts id la lo pla plo r d)
             (created snd ts id lat lng r d s)
| effect_verified id cla clo pla plo lat lng :
    locationId (location s id) <> "" ->
    isVerified (location s id) = false ->
    abi_decode_uint32 cla = Ok lat ->
    abi_decode_uint32 clo = Ok lng ->
    effect s (VerifyLocation id cla clo pla plo) (verified id lat lng s).


(** The invariant of the ledger: a slot holds the empty id or its own
    key, and holds a verified record only under a non-empty id. *)
Definition consistent (s : State) : Prop :=
  forall k,
    (locationId (location s k) = "" \/ locationId (location s k) = k) /\
    (isVerified (location s k) = true -> locationId (location s k) <> "").

End Effects.

(** ** What an observer of the contract sees

    The ids carried by the two kinds of events of a log, and the
    coherence of the log, of [locationIds], of the access-control calls
    and of the records with one another. *)

Section Observations.

Context {E : FHE.Engine}.

Definition created_ids (evs : list Event) : list string :=
  omap (fun ev => match ev with
                  | LocationCreated id _ => Some id
                  | LocationVerified _ _ _ => None
                  end) evs.

Definition verified_ids (evs : list Event) : list string :=
  omap (fun ev => match ev with
                  | LocationCreated _ _ => None
                  | LocationVerified id _ _ => Some id
                  end) evs.

(** The entries of [locationIds] other than the empty id. *)
Definition nonempty_ids (ids : list string) : list string :=
  filter (fun id => id <> "") ids.

(** The four access-control calls [createLocation] makes for a record. *)
Definition published (r : LocationData) (ops : list AclOp) : Prop :=
  AllowThis (FHE.toBytes32 (encryptedLatitude r)) ∈ ops /\
  AllowThis (FHE.toBytes32 (encryptedLongitude r)) ∈ ops /\
  MakePubliclyDecryptable (FHE.toBytes32 (encryptedLatitude r)) ∈ ops /\
  MakePubliclyDecryptable (FHE.toBytes32 (encryptedLongitude r)) ∈ ops.

Definition is_uint32 (v : Z) : Prop := 0 <= v < uint32_modulus.

Record coherent (s : State) : Prop := {
  coh_consistent : consistent s;
  coh_created : created_ids (events s) = locationIds s;
  coh_listed : forall k, locationId (location s k) <> "" -> k ∈ locationIds s;
  coh_exists : forall k, k ∈ locationIds s -> k <> "" -> locationId (location s k) = k;
  coh_unique : NoDup (nonempty_ids (locationIds s));
  coh_event_record : forall id lat lng,
    LocationVerified id lat lng ∈ events s ->
    isVerified (location s id) = true /\
    decryptedLatitude (location s id) = lat /\
    decryptedLongitude (location s id) = lng;
  coh_record_event : forall id,
    isVerified (location s id) = true ->
    LocationVerified id (decryptedLatitude (location s id))
                        (decryptedLongitude (location s id)) ∈ events s;
  coh_verified_once : NoDup (verified_ids (events s));
  coh_pending : forall k,
    isVerified (location s k) = false ->
    decryptedLatitude (location s k) = 0 /\ decryptedLongitude (location s k) = 0;
  coh_uint32 : forall k,
    is_uint32 (decryptedLatitude (location s k)) /\
    is_uint32 (decryptedLongitude (location s k));
  coh_published : forall k,
    locationId (location s k) <> "" -> published (location s k) (acl s)
}.

End Observations.

(** ** An executable engine

    Ciphertexts in the clear: a handle is [Some v] for a ciphertext of
    the 32-bit value [v], and [None] is the zero handle.  An input proof
    and a signature proof are accepted when they are not empty.  The
    arithmetic is that of [uint32]. *)

Module Clear.

Definition handle : Type := option Z.

Definition wrap (v : Z) : Z := v mod uint32_modulus.

Definition clear (h : handle) : Z := default 0 h.

Definition fromExternal (v : Z) (proof : bytes) : option handle :=
  match proof with
  | [] => None
  | _ :: _ => Some (Some (wrap v))
  end.

Definition isInitialized (h : handle) : bool :=
  match h with Some _ => true | None => false end.

Definition toBytes32 (h : handle) : bytes32 :=
  match h with Some v => v + 1 | None => 0 end.

Definition checkSignatures (cts : list bytes32) (cleartexts proof : bytes) : bool :=
  match proof with [] => false | _ :: _ => true end.

Definition sub (a b : handle) : handle := Some (wrap (clear a - clear b)).
Definition mul (a b : handle) : handle := Some (wrap (clear a * clear b)).
Definition add (a b : handle) : handle := Some (wrap (clear a + clear b)).
Definition euint32 (v : Z) : handle := Some (wrap v).
Definition leq (a b : handle) : bool := clear a <=? clear b.

End Clear.

Definition ClearEngine : FHE.Engine :=
  {| FHE.euint32_handle := Clear.handle;
     FHE.externalEuint32_handle := Z;
     FHE.uninitialized := None;
     FHE.fromExternal := Clear.fromExternal;
     FHE.isInitialized := Clear.isInitialized;
     FHE.toBytes32 := Clear.toBytes32;
     FHE.checkSignatures := Clear.checkSignatures;
     FHE.sub := Clear.sub;
     FHE.mul := Clear.mul;
     FHE.add := Clear.add;
     FHE.euint32 := Clear.euint32;
     FHE.leq := Clear.leq;
     FHE.clear := Clear.clear;
     FHE.clear_sub := fun _ _ => eq_refl;
     FHE.clear_mul := fun _ _ => eq_refl;
     FHE.clear_add := fun _ _ => eq_refl;
     FHE.clear_euint32 := fun _ => eq_refl;
     FHE.leq_spec := fun _ _ => eq_refl |}.

(** [abi.encode(uint32)]: one 32-byte big-endian word. *)
Definition byte_of (v : Z) : byte :=
  default x00 (Byte.of_N (Z.to_N (v mod 256))).

Definition abi_encode_uint32 (v : Z) : bytes :=
  replicate 28 x00 ++
  [byte_of (v / 2 ^ 24); byte_of (v / 2 ^ 16); byte_of (v / 2 ^ 8); byte_of v].

(** Concrete inputs for the executable engine. *)
Module Sample.

Definition ok : bytes := [x01].
Definition bad : bytes := [].

Definition alice : address := 10.

Definition create (id : string) (lat lng radius : Z) : Call (E := ClearEngine) :=
  CreateLocation (E := ClearEngine) alice 1700000000 id lat lng ok ok radius "a place".

Definition verify (id : string) (lat lng : Z) : Call (E := ClearEngine) :=
  VerifyLocation (E := ClearEngine) id (abi_encode_uint32 lat) (abi_encode_uint32 lng) ok ok.

Definition check (id : string) (lat lng : Z) : Call (E := ClearEngine) :=
  CheckLocationProximity (E := ClearEngine) id lat lng ok ok.

(** [loc1] created with radius 100 and verified at (2500000, 12150000). *)
Definition loc1_created : State (E := ClearEngine) :=
  run initial [create "loc1" 2500000 12150000 100].

Definition loc1_verified : State (E := ClearEngine) :=
  run loc1_created [verify "loc1" 2500000 12150000].

End Sample.

(** ** What each call does *)

Section Execution.

Context {E : FHE.Engine}.

Lemma bytes_length_zero (x : string) : (bytes_length x =? 0)%nat = true <-> x = "".
Proof.
  destruct x; simpl; split; intros H; try reflexivity; discriminate.
Qed.

Lemma bytes_length_pos (x : string) : (0 <? bytes_length x)%nat = true <-> x <> "".
Proof.
  destruct x; simpl; split; intros H; try discriminate; try reflexivity.
  now contradiction H.
Qed.

Lemma location_set_location_eq id r s : location (set_location id r s) id = r.
Proof. unfold location, set_location; simpl. now rewrite lookup_insert_eq. Qed.

Lemma location_created_eq snd ts id lat lng r d s :
  location (created snd ts id lat lng r d s) id = new_location snd ts id lat lng r d.
Proof. unfold location, created; simpl. now rewrite lookup_insert_eq. Qed.

Lemma location_created_ne snd ts id k lat lng r d s :
  id <> k -> location (created snd ts id lat lng r d s) k = location s k.
Proof. intros H. unfold location, created; simpl. now rewrite lookup_insert_ne. Qed.

Lemma location_verified_eq id lat lng s :
  location (verified id lat lng s) id = verified_location lat lng (location s id).
Proof. unfold location at 1, verified; simpl. now rewrite lookup_insert_eq. Qed.

Lemma location_verified_ne id k lat lng s :
  id <> k -> location (verified id lat lng s) k = location s k.
Proof. intros H. unfold location, verified; simpl. now rewrite lookup_insert_ne. Qed.

(** [createLocation], check by check. *)
Lemma createLocation_eq snd ts id la lo pla plo r d s :
  createLocation snd ts id la lo pla plo r d s =
  if negb (bytes_length (locationId (location s id)) =? 0)%nat then Revert DuplicateId
  else match FHE.fromExternal la pla with
       | None => Revert InvalidInputProof
       | Some lat =>
         if negb (FHE.isInitialized lat) then Revert InvalidEncryptedLatitude
         else match FHE.fromExternal lo plo with
              | None => Revert InvalidInputProof
              | Some lng =>
                if negb (FHE.isInitialized lng) then Revert InvalidEncryptedLongitude
                else Ok (tt, created snd ts id lat lng r d s)
              end
       end.
Proof.
  unfold createLocation, bind, sload, require, FHE_fromExternal; simpl.
  destruct (bytes_length (locationId (location s id)) =? 0)%nat; simpl; [|reflexivity].
  destruct (FHE.fromExternal la pla) as [lat|]; simpl; [|reflexivity].
  destruct (FHE.isInitialized lat); simpl; [|reflexivity].
  destruct (FHE.fromExternal lo plo) as [lng|]; simpl; [|reflexivity].
  destruct (FHE.isInitialized lng); simpl; [|reflexivity].
  unfold created, new_location, set_location, location; simpl.
  rewrite !lookup_insert_eq; simpl. reflexivity.
Qed.

(** [verifyLocation], check by check. *)
Lemma verifyLocation_eq id cla clo pla plo s :
  verifyLocation id cla clo pla plo s =
  let r := location s id in
  let cts := [FHE.toBytes32 (encryptedLatitude r); FHE.toBytes32 (encryptedLongitude r)] in
  if negb (0 <? bytes_length (locationId r))%nat then Revert NotFound
  else if isVerified r then Revert AlreadyVerified
  else if negb (FHE.checkSignatures cts cla pla) then Revert InvalidSignatures
  else if negb (FHE.checkSignatures cts clo plo) then Revert InvalidSignatures
  else match abi_decode_uint32 cla with
       | Revert e => Revert e
       | Ok lat =>
         match abi_decode_uint32 clo with
         | Revert e => Revert e
         | Ok lng => Ok (tt, verified id lat lng s)
         end
       end.
Proof.
  unfold verifyLocation, bind, sload, require, FHE_checkSignatures, lift; simpl.
  destruct (0 <? bytes_length (locationId (location s id)))%nat; simpl; [|reflexivity].
  destruct (isVerified (location s id)); simpl; [reflexivity|].
  destruct (FHE.checkSignatures _ cla pla); simpl; [|reflexivity].
  destruct (FHE.checkSignatures _ clo plo); simpl; [|reflexivity].
  destruct (abi_decode_uint32 cla) as [lat|]; simpl; [|reflexivity].
  destruct (abi_decode_uint32 clo) as [lng|]; simpl; [|reflexivity].
  rewrite !location_set_location_eq.
  unfold emit, sstore, verified, verified_location, set_location; simpl.
  rewrite !insert_insert_eq. reflexivity.
Qed.

(** [checkLocationProximity], check by check. *)
Lemma checkLocationProximity_eq id la lo pla plo s :
  checkLocationProximity id la lo pla plo s =
  let r := location s id in
  if negb (0 <? bytes_length (locationId r))%nat then Revert NotFound
  else if negb (isVerified r) then Revert NotVerified
  else match FHE.fromExternal la pla with
       | None => Revert InvalidInputProof
       | Some userLat =>
         match FHE.fromExternal lo plo with
         | None => Revert InvalidInputProof
         | Some userLng =>
           let dLat := FHE.sub userLat (encryptedLatitude r) in
           let dLng := FHE.sub userLng (encryptedLongitude r) in
           match checked_mul (publicRadius r) (publicRadius r) with
           | Revert e => Revert e
           | Ok rr =>
             Ok (FHE.leq (FHE.add (FHE.mul dLat dLat) (FHE.mul dLng dLng))
                         (FHE.euint32 rr), s)
           end
         end
       end.
Proof.
  unfold checkLocationProximity, bind, sload, require, FHE_fromExternal, lift; simpl.
  destruct (0 <? bytes_length (locationId (location s id)))%nat; simpl; [|reflexivity].
  destruct (isVerified (location s id)); simpl; [|reflexivity].
  destruct (FHE.fromExternal la pla); simpl; [|reflexivity].
  destruct (FHE.fromExternal lo plo); simpl; [|reflexivity].
  destruct (checked_mul _ _); reflexivity.
Qed.

Lemma getLocationData_eq id s :
  getLocationData id s =
  let r := location s id in
  if negb (0 <? bytes_length (locationId r))%nat then Revert NotFound
  else Ok ((description r, creator r, timestamp r, isVerified r, publicRadius r), s).
Proof.
  unfold getLocationData, bind, sload, require; simpl.
  destruct (0 <? bytes_length (locationId (location s id)))%nat; reflexivity.
Qed.

End Execution.

(** ** One transaction *)

Section Transactions.

Context {E : FHE.Engine}.

Lemma exec_createLocation snd ts id la lo pla plo r d s :
  exec s (CreateLocation snd ts id la lo pla plo r d) =
  match createLocation snd ts id la lo pla plo r d s with
  | Ok (_, s') => (s', Ok RUnit)
  | Revert e => (s, Revert e)
  end.
Proof.
  unfold exec, dispatch, bind, ret.
  destruct (createLocation snd ts id la lo pla plo r d s) as [[[] s']|]; reflexivity.
Qed.

Lemma exec_verifyLocation id cla clo pla plo s :
  exec s (VerifyLocation id cla clo pla plo) =
  match verifyLocation id cla clo pla plo s with
  | Ok (_, s') => (s', Ok RUnit)
  | Revert e => (s, Revert e)
  end.
Proof.
  unfold exec, dispatch, bind, ret.
  destruct (verifyLocation id cla clo pla plo s) as [[[] s']|]; reflexivity.
Qed.

(** The functions declared [view] return the state they were given. *)
Lemma checkLocationProximity_view id la lo pla plo s b s' :
  checkLocationProximity id la lo pla plo s = Ok (b, s') -> s' = s.
Proof.
  rewrite checkLocationProximity_eq; cbv zeta.
  repeat match goal with
         | |- context [if ?c then _ else _] => destruct c
         | |- context [match ?c with _ => _ end] => destruct c
         end; congruence.
Qed.

Lemma getLocationData_view id s v s' : getLocationData id s = Ok (v, s') -> s' = s.
Proof.
  rewrite getLocationData_eq; cbv zeta.
  destruct (negb _); congruence.
Qed.

Lemma exec_checkLocationProximity id la lo pla plo s :
  exec s (CheckLocationProximity id la lo pla plo) =
  (s, match checkLocationProximity id la lo pla plo s with
      | Ok (b, _) => Ok (RBool b)
      | Revert e => Revert e
      end).
Proof.
  unfold exec, dispatch, bind, ret.
  destruct (checkLocationProximity id la lo pla plo s) as [[b s']|] eqn:H; [|reflexivity].
  apply checkLocationProximity_view in H. now subst.
Qed.

Lemma exec_getLocationData id s :
  exec s (GetLocationData id) =
  (s, match getLocationData id s with
      | Ok (v, _) => Ok (RView v)
      | Revert e => Revert e
      end).
Proof.
  unfold exec, dispatch, bind, ret.
  destruct (getLocationData id s) as [[v s']|] eqn:H; [|reflexivity].
  apply getLocationData_view in H. now subst.
Qed.

Lemma exec_getAllLocationIds s :
  exec s GetAllLocationIds = (s, Ok (RIds (locationIds s))).
Proof. reflexivity. Qed.

Lemma exec_locationData_getter id s :
  exec s (LocationDataOf id) = (s, Ok (RRecord (location s id))).
Proof. reflexivity. Qed.

Lemma step_effect s c : effect s c (step s c).
Proof.
  unfold step. destruct c.
  - rewrite exec_createLocation, createLocation_eq.
    destruct (bytes_length _ =? 0)%nat eqn:Hid; simpl; [|constructor].
    apply bytes_length_zero in Hid.
    destruct (FHE.fromExternal encLat _) as [lat|] eqn:Hlat; simpl; [|constructor].
    destruct (FHE.isInitialized lat) eqn:Ilat; simpl; [|constructor].
    destruct (FHE.fromExternal encLng _) as [lng|] eqn:Hlng; simpl; [|constructor].
    destruct (FHE.isInitialized lng) eqn:Ilng; simpl; [|constructor].
    econstructor; eassumption.
  - rewrite exec_verifyLocation, verifyLocation_eq; cbv zeta.
    destruct (0 <? bytes_length _)%nat eqn:Hid; simpl; [|constructor].
    apply bytes_length_pos in Hid.
    destruct (isVerified _) eqn:Hv; simpl; [constructor|].
    destruct (FHE.checkSignatures _ clearLat _); simpl; [|constructor].
    destruct (FHE.checkSignatures _ clearLng _); simpl; [|constructor].
    destruct (abi_decode_uint32 clearLat) as [lat|] eqn:Dlat; simpl; [|constructor].
    destruct (abi_decode_uint32 clearLng) as [lng|] eqn:Dlng; simpl; [|constructor].
    econstructor; eassumption.
  - rewrite exec_checkLocationProximity. constructor.
  - rewrite exec_getLocationData. constructor.
  - constructor.
  - constructor.
  - constructor.
  - unfold exec, dispatch, locationIds_getter, bind, sload, ret, revert.
    destruct (locationIds s !! i); constructor.
Qed.

(** *** Frame properties of one call *)

Lemma step_registration s c k :
  locationId (location s k) <> "" ->
  registration (location (step s c) k) = registration (location s k).
Proof.
  intros Hk. destruct (step_effect s c) as [c | ? ? id ? ? ? ? ? ? ? ? Hid | id ? ? ? ? lat lng].
  - reflexivity.
  - destruct (decide (id = k)) as [->|Hne]; [contradiction|].
    now rewrite location_created_ne.
  - destruct (decide (id = k)) as [->|Hne].
    + now rewrite location_verified_eq.
    + now rewrite location_verified_ne.
Qed.

Lemma step_exists s c k :
  locationId (location s k) <> "" -> locationId (location (step s c) k) <> "".
Proof.
  intros Hk. pose proof (step_registration s c k Hk) as H.
  unfold registration in H. injection H as -> _ _ _ _ _ _. exact Hk.
Qed.

(** A verified record of an existing location is final. *)
Lemma step_verified_final s c k :
  locationId (location s k) <> "" ->
  isVerified (location s k) = true ->
  location (step s c) k = location s k.
Proof.
  intros Hk Hv.
  destruct (step_effect s c) as [c | ? ? id ? ? ? ? ? ? ? ? Hid | id ? ? ? ? lat lng ? Hnv].
  - reflexivity.
  - destruct (decide (id = k)) as [->|Hne]; [contradiction|].
    now rewrite location_created_ne.
  - destruct (decide (id = k)) as [->|Hne]; [congruence|].
    now rewrite location_verified_ne.
Qed.


End Transactions.

(** ** Histories of calls *)

Section Histories.

Context {E : FHE.Engine}.

Lemma run_cons s c cs : run s (c :: cs) = run (step s c) cs.
Proof. reflexivity. Qed.

Lemma run_registration cs : forall s k,
  locationId (location s k) <> "" ->
  registration (location (run s cs) k) = registration (location s k).
Proof.
  induction cs as [|c cs IH]; intros s k Hk; [reflexivity|].
  rewrite run_cons, IH by now apply step_exists.
  now apply step_registration.
Qed.

Lemma run_exists cs s k :
  locationId (location s k) <> "" -> locationId (location (run s cs) k) <> "".
Proof.
  intros Hk. pose proof (run_registration cs s k Hk) as H.
  unfold registration in H. injection H as -> _ _ _ _ _ _. exact Hk.
Qed.

Lemma run_verified_final cs : forall s k,
  locationId (location s k) <> "" ->
  isVerified (location s k) = true ->
  location (run s cs) k = location s k.
Proof.
  induction cs as [|c cs IH]; intros s k Hk Hv; [reflexivity|].
  pose proof (step_verified_final s c k Hk Hv) as Hs.
  rewrite run_cons, IH; rewrite ?Hs; auto.
Qed.


Lemma consistent_initial : consistent initial.
Proof.
  intros k. unfold location, initial; simpl. rewrite lookup_empty; simpl.
  split; [now left | discriminate].
Qed.

Lemma consistent_step s c : consistent s -> consistent (step s c).
Proof.
  intros Hs k. destruct (Hs k) as [Hkey Hver].
  destruct (step_effect s c) as [c | ? ? id ? ? ? ? ? ? ? ? Hid | id ? ? ? ? lat lng Hex Hnv].
  - now split.
  - destruct (decide (id = k)) as [->|Hne].
    + rewrite location_created_eq; simpl. split; [now right | discriminate].
    + rewrite location_created_ne by assumption. now split.
  - destruct (decide (id = k)) as [->|Hne].
    + rewrite location_verified_eq; simpl. split; [assumption | now intros _].
    + rewrite location_verified_ne by assumption. now split.
Qed.

Lemma consistent_run cs : forall s, consistent s -> consistent (run s cs).
Proof.
  induction cs as [|c cs IH]; intros s Hs; [assumption|].
  rewrite run_cons. apply IH. now apply consistent_step.
Qed.

Lemma history_consistent cs : consistent (run initial cs).
Proof. apply consistent_run, consistent_initial. Qed.

(** In a history of the contract, the slot of the empty id never holds
    a non-empty id. *)
Lemma empty_id_slot cs : locationId (location (run initial cs) "") = "".
Proof.
  destruct (history_consistent cs "") as [[H|H] _]; exact H.
Qed.

(** What a successful call leaves. *)
Lemma createLocation_ok snd ts id la lo pla plo r d s s1 v :
  exec s (CreateLocation snd ts id la lo pla plo r d) = (s1, Ok v) ->
  locationId (location s id) = "" /\
  exists lat lng,
    FHE.fromExternal la pla = Some lat /\ FHE.isInitialized lat = true /\
    FHE.fromExternal lo plo = Some lng /\ FHE.isInitialized lng = true /\
    s1 = created snd ts id lat lng r d s.
Proof.
  rewrite exec_createLocation, createLocation_eq.
  destruct (bytes_length _ =? 0)%nat eqn:Hid; simpl; [|discriminate].
  apply bytes_length_zero in Hid.
  destruct (FHE.fromExternal la pla) as [lat|]; simpl; [|discriminate].
  destruct (FHE.isInitialized lat) eqn:Ilat; simpl; [|discriminate].
  destruct (FHE.fromExternal lo plo) as [lng|]; simpl; [|discriminate].
  destruct (FHE.isInitialized lng) eqn:Ilng; simpl; [|discriminate].
  intros H. injection H as <- _. split; [assumption|].
  exists lat, lng. repeat split; assumption.
Qed.

Lemma verifyLocation_ok id cla clo pla plo s s1 v :
  exec s (VerifyLocation id cla clo pla plo) = (s1, Ok v) ->
  locationId (location s id) <> "" /\
  isVerified (location s id) = false /\
  exists lat lng,
    abi_decode_uint32 cla = Ok lat /\ abi_decode_uint32 clo = Ok lng /\
    s1 = verified id lat lng s.
Proof.
  rewrite exec_verifyLocation, verifyLocation_eq; cbv zeta.
  destruct (0 <? bytes_length _)%nat eqn:Hid; simpl; [|discriminate].
  apply bytes_length_pos in Hid.
  destruct (isVerified _) eqn:Hv; simpl; [discriminate|].
  destruct (FHE.checkSignatures _ cla pla); simpl; [|discriminate].
  destruct (FHE.checkSignatures _ clo plo); simpl; [|discriminate].
  destruct (abi_decode_uint32 cla) as [lat|]; simpl; [|discriminate].
  destruct (abi_decode_uint32 clo) as [lng|]; simpl; [|discriminate].
  intros H. injection H as <- _. repeat split; try assumption.
  exists lat, lng. repeat split.
Qed.

(** A call on an existing id is refused by [createLocation], and a call
    on a verified one by [verifyLocation]. *)
Lemma createLocation_exists snd ts id la lo pla plo r d s :
  locationId (location s id) <> "" ->
  exec s (CreateLocation snd ts id la lo pla plo r d) = (s, Revert DuplicateId).
Proof.
  intros Hid. rewrite exec_createLocation, createLocation_eq.
  destruct (bytes_length _ =? 0)%nat eqn:H0; simpl; [|reflexivity].
  apply bytes_length_zero in H0. contradiction.
Qed.

Lemma verifyLocation_verified id cla clo pla plo s :
  locationId (location s id) <> "" ->
  isVerified (location s id) = true ->
  exec s (VerifyLocation id cla clo pla plo) = (s, Revert AlreadyVerified).
Proof.
  intros Hid Hv. rewrite exec_verifyLocation, verifyLocation_eq; cbv zeta.
  apply bytes_length_pos in Hid. rewrite Hid, Hv. reflexivity.
Qed.

End Histories.

(** ** Properties of the location lifecycle *)

Section Lifecycle.

Context {E : FHE.Engine}.

(** C1 (as amended).  For every non-empty id: once [createLocation] has
    admitted a record under the id, every later [createLocation] with
    the same id, whatever its other arguments and whatever calls came in
    between, reverts with "Location already exists" and leaves the state
    as it was; the record stored by the first call is the one built from
    its arguments, and its creation-time members never change. *)
Theorem createLocation_rejects_duplicate
    snd ts id la lo pla plo r d (s s1 : State) :
  id <> "" ->
  exec s (CreateLocation snd ts id la lo pla plo r d) = (s1, Ok RUnit) ->
  (exists lat lng,
      FHE.fromExternal la pla = Some lat /\ FHE.fromExternal lo plo = Some lng /\
      location s1 id = new_location snd ts id lat lng r d) /\
  forall later snd' ts' la' lo' pla' plo' r' d',
    exec (run s1 later) (CreateLocation snd' ts' id la' lo' pla' plo' r' d')
      = (run s1 later, Revert DuplicateId) /\
    registration (location (run s1 later) id) = registration (location s1 id).
Proof.
  intros Hid Hex.
  apply createLocation_ok in Hex as (_ & lat & lng & Hlat & _ & Hlng & _ & ->).
  split.
  - exists lat, lng. repeat split; try assumption. apply location_created_eq.
  - intros later snd' ts' la' lo' pla' plo' r' d'.
    assert (Hex : locationId (location (created snd ts id lat lng r d s) id) <> "")
      by now rewrite location_created_eq.
    split.
    + apply createLocation_exists. now apply run_exists.
    + now apply run_registration.
Qed.

(** C2.  [verifyLocation] succeeds at most once on a record: after a
    successful call, every later call on the same id reverts with
    "Location already verified", leaves the state as it was, and the
    decrypted coordinates stay those of the successful call. *)
Theorem verifyLocation_at_most_once id cla clo pla plo (s s1 : State) :
  exec s (VerifyLocation id cla clo pla plo) = (s1, Ok RUnit) ->
  forall later cla' clo' pla' plo',
    exec (run s1 later) (VerifyLocation id cla' clo' pla' plo')
      = (run s1 later, Revert AlreadyVerified) /\
    decryptedLatitude (location (run s1 later) id) = decryptedLatitude (location s1 id) /\
    decryptedLongitude (location (run s1 later) id) = decryptedLongitude (location s1 id).
Proof.
  intros Hex later cla' clo' pla' plo'.
  apply verifyLocation_ok in Hex as (Hid & _ & lat & lng & _ & _ & ->).
  assert (Hid1 : locationId (location (verified id lat lng s) id) <> "")
    by now rewrite location_verified_eq.
  assert (Hv1 : isVerified (location (verified id lat lng s) id) = true)
    by now rewrite location_verified_eq.
  pose proof (run_verified_final later _ _ Hid1 Hv1) as Hfin.
  split; [|now rewrite Hfin].
  apply verifyLocation_verified; now rewrite Hfin.
Qed.

(** C3.  [isVerified] is monotonic: in every history of the contract,
    a record whose flag is true keeps it true through every further
    sequence of calls (creations, verifications, proximity checks and
    queries). *)
Theorem isVerified_monotonic (history later : list Call) (id : string) :
  isVerified (location (run initial history) id) = true ->
  isVerified (location (run (run initial history) later) id) = true.
Proof.
  intros Hv.
  destruct (history_consistent history id) as [_ Hex].
  rewrite run_verified_final; auto.
Qed.

(** C4.  On an existing record that is not verified,
    [checkLocationProximity] reverts with "Location not verified"
    whatever the claimant's ciphertexts and proofs are: the test comes
    before the engine looks at them. *)
Theorem checkLocationProximity_not_verified id la lo pla plo (s : State) :
  locationId (location s id) <> "" ->
  isVerified (location s id) = false ->
  exec s (CheckLocationProximity id la lo pla plo) = (s, Revert NotVerified).
Proof.
  intros Hid Hv. rewrite exec_checkLocationProximity, checkLocationProximity_eq; cbv zeta.
  apply bytes_length_pos in Hid. rewrite Hid, Hv. reflexivity.
Qed.

(** The proximity test on a verified record with accepted inputs, in
    terms of the encrypted values: every operation on [euint32] is
    taken modulo [2^32]. *)
Lemma checkLocationProximity_value id la lo pla plo userLat userLng (s : State) :
  let r := location s id in
  let dLat := FHE.clear userLat - FHE.clear (encryptedLatitude r) in
  let dLng := FHE.clear userLng - FHE.clear (encryptedLongitude r) in
  locationId r <> "" ->
  isVerified r = true ->
  FHE.fromExternal la pla = Some userLat ->
  FHE.fromExternal lo plo = Some userLng ->
  checkLocationProximity id la lo pla plo s =
  match checked_mul (publicRadius r) (publicRadius r) with
  | Ok rr => Ok ((dLat ^ 2 + dLng ^ 2) mod uint32_modulus <=? rr mod uint32_modulus, s)
  | Revert e => Revert e
  end.
Proof.
  intros r dLat dLng Hid Hv Hlat Hlng.
  rewrite checkLocationProximity_eq; cbv zeta. fold r.
  apply bytes_length_pos in Hid. rewrite Hid, Hv, Hlat, Hlng; simpl.
  destruct (checked_mul (publicRadius r) (publicRadius r)) as [rr|]; [|reflexivity].
  rewrite FHE.leq_spec, FHE.clear_add, !FHE.clear_mul, !FHE.clear_sub, FHE.clear_euint32.
  fold dLat dLng.
  rewrite <- !Z.mul_mod by (unfold uint32_modulus; lia).
  rewrite <- Z.add_mod by (unfold uint32_modulus; lia).
  rewrite !Z.pow_2_r. reflexivity.
Qed.

(** C5 (as amended).  On a verified record with center
    (centerLat, centerLng), the values its stored ciphertexts encrypt,
    and radius r, for accepted claimant ciphertexts encrypting
    (userLat, userLng): when the squared distance and r^2 are both below
    2^32, [checkLocationProximity] returns exactly the boolean
    (userLat - centerLat)^2 + (userLng - centerLng)^2 <= r^2.  In that
    range a claimant at squared distance r^2 is inside and one at
    r^2 + 1 is outside. *)
Theorem checkLocationProximity_exact id la lo pla plo userLat userLng (s : State) :
  let r := location s id in
  let dLat := FHE.clear userLat - FHE.clear (encryptedLatitude r) in
  let dLng := FHE.clear userLng - FHE.clear (encryptedLongitude r) in
  locationId r <> "" ->
  isVerified r = true ->
  FHE.fromExternal la pla = Some userLat ->
  FHE.fromExternal lo plo = Some userLng ->
  dLat ^ 2 + dLng ^ 2 < uint32_modulus ->
  publicRadius r ^ 2 < uint32_modulus ->
  exec s (CheckLocationProximity id la lo pla plo)
    = (s, Ok (RBool (dLat ^ 2 + dLng ^ 2 <=? publicRadius r ^ 2))).
Proof.
  intros r dLat dLng Hid Hv Hlat Hlng Hd Hr.
  rewrite exec_checkLocationProximity.
  rewrite (checkLocationProximity_value id la lo pla plo userLat userLng s Hid Hv Hlat Hlng).
  fold r dLat dLng.
  assert (Hr0 : 0 <= publicRadius r ^ 2) by (rewrite Z.pow_2_r; apply Z.square_nonneg).
  assert (Hd0 : 0 <= dLat ^ 2 + dLng ^ 2).
  { rewrite !Z.pow_2_r. pose proof (Z.square_nonneg dLat). pose proof (Z.square_nonneg dLng). lia. }
  rewrite Z.pow_2_r in Hr, Hr0.
  unfold checked_mul.
  destruct (publicRadius r * publicRadius r <? uint256_modulus) eqn:Hc.
  - rewrite !Z.mod_small by lia. now rewrite (Z.pow_2_r (publicRadius r)).
  - apply Z.ltb_ge in Hc. exfalso.
    assert (uint32_modulus < uint256_modulus) by reflexivity. lia.
Qed.

(** C6 (as amended).  [checkLocationProximity] makes no overflow check
    on the encrypted arithmetic: on a verified record with accepted
    inputs, the differences, their squares and their sum are taken
    modulo 2^32, and radius * radius, computed on 256 bits, is then
    reduced modulo 2^32; the only overflow that aborts the call is the
    one of radius * radius beyond 256 bits, as an arithmetic panic. *)
Theorem checkLocationProximity_modular id la lo pla plo userLat userLng (s : State) :
  let r := location s id in
  let dLat := FHE.clear userLat - FHE.clear (encryptedLatitude r) in
  let dLng := FHE.clear userLng - FHE.clear (encryptedLongitude r) in
  let rr := publicRadius r * publicRadius r in
  locationId r <> "" ->
  isVerified r = true ->
  FHE.fromExternal la pla = Some userLat ->
  FHE.fromExternal lo plo = Some userLng ->
  exec s (CheckLocationProximity id la lo pla plo)
    = (s, if rr <? uint256_modulus
          then Ok (RBool ((dLat ^ 2 + dLng ^ 2) mod uint32_modulus <=? rr mod uint32_modulus))
          else Revert ArithmeticOverflow).
Proof.
  intros r dLat dLng rr Hid Hv Hlat Hlng.
  rewrite exec_checkLocationProximity.
  rewrite (checkLocationProximity_value id la lo pla plo userLat userLng s Hid Hv Hlat Hlng).
  fold r dLat dLng. unfold checked_mul. fold rr.
  destruct (rr <? uint256_modulus); reflexivity.
Qed.

End Lifecycle.

Section Reveal.

Context {E : FHE.Engine}.

(** C7.  [verifyLocation] is all or nothing.  A call in which either
    signature check fails reverts, and a call that reverts leaves the
    whole state as it was; a call that succeeds has decoded both clear
    values and writes [decryptedLatitude], [decryptedLongitude] and
    [isVerified] together, changing nothing else of the record and no
    other record. *)
Theorem verifyLocation_atomic id cla clo pla plo (s : State) :
  let r := location s id in
  let cts := [FHE.toBytes32 (encryptedLatitude r); FHE.toBytes32 (encryptedLongitude r)] in
  let call := VerifyLocation id cla clo pla plo in
  (FHE.checkSignatures cts cla pla = false \/ FHE.checkSignatures cts clo plo = false ->
   exists e, exec s call = (s, Revert e)) /\
  ((exists e, exec s call = (s, Revert e)) \/
   (exists lat lng,
      abi_decode_uint32 cla = Ok lat /\ abi_decode_uint32 clo = Ok lng /\
      outcome s call = Ok RUnit /\
      decryptedLatitude (location (step s call) id) = lat /\
      decryptedLongitude (location (step s call) id) = lng /\
      isVerified (location (step s call) id) = true /\
      isVerified r = false /\
      registration (location (step s call) id) = registration r /\
      forall k, k <> id -> location (step s call) k = location s k)).
Proof.
  intros r cts call. unfold call, outcome, step.
  rewrite exec_verifyLocation, verifyLocation_eq; cbv zeta. fold r cts.
  split.
  - intros Hsig.
    destruct (negb (0 <? bytes_length (locationId r))%nat); [now eexists|].
    destruct (isVerified r); [now eexists|].
    destruct Hsig as [-> | Hsig]; simpl; [now eexists|].
    destruct (FHE.checkSignatures cts cla pla); simpl; [|now eexists].
    rewrite Hsig. simpl. now eexists.
  - destruct (negb (0 <? bytes_length (locationId r))%nat); [left; now eexists|].
    destruct (isVerified r) eqn:Hv; [left; now eexists|].
    destruct (negb (FHE.checkSignatures cts cla pla)); [left; now eexists|].
    destruct (negb (FHE.checkSignatures cts clo plo)); [left; now eexists|].
    destruct (abi_decode_uint32 cla) as [lat|]; [|left; now eexists].
    destruct (abi_decode_uint32 clo) as [lng|]; [|left; now eexists].
    right. exists lat, lng. simpl. rewrite location_verified_eq. fold r.
    repeat split.
    intros k Hk. apply location_verified_ne. congruence.
Qed.

(** C8 (as amended).  After a [verifyLocation] that succeeds with
    decoded values (lat, lng), at every later point of the history
    [getLocationData(id)] succeeds and reports [isVerified = true], and
    the record read through the getter [locationData(id)] is verified
    and holds exactly lat and lng.  (The result of [getLocationData]
    has no member for the decrypted coordinates.) *)
Theorem verifyLocation_roundtrip id cla clo pla plo lat lng (s s1 : State) :
  exec s (VerifyLocation id cla clo pla plo) = (s1, Ok RUnit) ->
  abi_decode_uint32 cla = Ok lat ->
  abi_decode_uint32 clo = Ok lng ->
  forall later,
    (exists d c t r,
        outcome (run s1 later) (GetLocationData id) = Ok (RView (d, c, t, true, r))) /\
    (exists rec,
        outcome (run s1 later) (LocationDataOf id) = Ok (RRecord rec) /\
        isVerified rec = true /\
        decryptedLatitude rec = lat /\
        decryptedLongitude rec = lng).
Proof.
  intros Hex Hlat Hlng later.
  apply verifyLocation_ok in Hex as (Hid & _ & lat' & lng' & Hlat' & Hlng' & ->).
  assert (lat' = lat) as -> by congruence.
  assert (lng' = lng) as -> by congruence.
  assert (Hid1 : locationId (location (verified id lat lng s) id) <> "")
    by now rewrite location_verified_eq.
  assert (Hv1 : isVerified (location (verified id lat lng s) id) = true)
    by now rewrite location_verified_eq.
  pose proof (run_verified_final later _ _ Hid1 Hv1) as Hfin.
  split.
  - unfold outcome. rewrite exec_getLocationData, getLocationData_eq; cbv zeta.
    rewrite Hfin. apply bytes_length_pos in Hid1. rewrite Hid1, Hv1. simpl.
    now repeat eexists.
  - eexists. unfold outcome. rewrite exec_locationData_getter. simpl.
    split; [reflexivity|]. rewrite Hfin, location_verified_eq. now repeat split.
Qed.


(** C10.  The empty id is never an existing location.  In every history
    of the contract: [createLocation] with the empty id is never
    refused as a duplicate; with accepted, initialized ciphertexts it
    succeeds, again and again, each time overwriting the record of the
    empty id and appending one more empty entry to [locationIds]; and
    [verifyLocation], [checkLocationProximity] and [getLocationData] on
    the empty id revert with "Location does not exist". *)
Theorem empty_id_never_exists (history : list Call) :
  let s := run initial history in
  (forall snd ts la lo pla plo r d,
      outcome s (CreateLocation snd ts "" la lo pla plo r d) <> Revert DuplicateId) /\
  (forall snd ts la lo pla plo r d lat lng,
      FHE.fromExternal la pla = Some lat -> FHE.isInitialized lat = true ->
      FHE.fromExternal lo plo = Some lng -> FHE.isInitialized lng = true ->
      let call := CreateLocation snd ts "" la lo pla plo r d in
      outcome s call = Ok RUnit /\
      location (step s call) "" = new_location snd ts "" lat lng r d /\
      locationIds (step s call) = locationIds s ++ [""]) /\
  (forall cla clo pla plo,
      outcome s (VerifyLocation "" cla clo pla plo) = Revert NotFound) /\
  (forall la lo pla plo,
      outcome s (CheckLocationProximity "" la lo pla plo) = Revert NotFound) /\
  outcome s (GetLocationData "") = Revert NotFound.
Proof.
  intros s. pose proof (empty_id_slot history) as Hslot. fold s in Hslot.
  split; [|split; [|split; [|split]]].
  - intros snd ts la lo pla plo r d. unfold outcome.
    rewrite exec_createLocation, createLocation_eq, Hslot. simpl.
    destruct (FHE.fromExternal la pla) as [lat|]; simpl; [|discriminate].
    destruct (FHE.isInitialized lat); simpl; [|discriminate].
    destruct (FHE.fromExternal lo plo) as [lng|]; simpl; [|discriminate].
    destruct (FHE.isInitialized lng); simpl; discriminate.
  - intros snd ts la lo pla plo r d lat lng Hlat Ilat Hlng Ilng call.
    unfold call, outcome, step.
    rewrite exec_createLocation, createLocation_eq, Hslot. simpl.
    rewrite Hlat, Ilat. simpl. rewrite Hlng, Ilng. simpl.
    split; [reflexivity|]. split; [apply location_created_eq | reflexivity].
  - intros cla clo pla plo. unfold outcome.
    rewrite exec_verifyLocation, verifyLocation_eq; cbv zeta. now rewrite Hslot.
  - intros la lo pla plo. unfold outcome.
    rewrite exec_checkLocationProximity, checkLocationProximity_eq; cbv zeta.
    now rewrite Hslot.
  - unfold outcome. rewrite exec_getLocationData, getLocationData_eq; cbv zeta.
    now rewrite Hslot.
Qed.

End Reveal.

(** ** The properties on concrete histories *)

(** The scenarios of the specification, run on the executable engine. *)

Example abi_roundtrip_sample :
  abi_decode_uint32 (abi_encode_uint32 12150000) = Ok 12150000.
Proof. reflexivity. Qed.

Example scenario_A :
  outcome Sample.loc1_verified (Sample.check "loc1" 2500000 12150000) = Ok (RBool true).
Proof. reflexivity. Qed.

Example scenario_B :
  outcome Sample.loc1_verified (Sample.check "loc1" (2500000 + 1000) 12150000)
  = Ok (RBool false).
Proof. reflexivity. Qed.

Example scenario_C :
  outcome Sample.loc1_created (Sample.check "loc1" 2500000 12150000) = Revert NotVerified.
Proof. reflexivity. Qed.

Example scenario_D :
  outcome Sample.loc1_created (Sample.verify "loc1" 2500000 12150000) = Ok RUnit /\
  outcome Sample.loc1_verified (Sample.verify "loc1" 2500000 12150000)
  = Revert AlreadyVerified.
Proof. split; reflexivity. Qed.

(** The boundary of the proximity test, radius 100 around
    (2500000, 12150000): squared distance 60^2 + 80^2 = 100^2 is inside,
    squared distance 100^2 + 1 is outside. *)
Example boundary_inside :
  outcome Sample.loc1_verified (Sample.check "loc1" (2500000 + 60) (12150000 + 80))
  = Ok (RBool true).
Proof. reflexivity. Qed.

Example boundary_outside :
  outcome Sample.loc1_verified (Sample.check "loc1" (2500000 + 100) (12150000 + 1))
  = Ok (RBool false).
Proof. reflexivity. Qed.

(** C1, at the empty id: the second [createLocation] is not refused; it
    succeeds and replaces the record of the first. *)
Lemma createLocation_empty_id_twice :
  let first := Sample.create "" 1 2 100 in
  let second := Sample.create "" 3 4 5 in
  let s1 := step initial first in
  outcome initial first = Ok RUnit /\
  outcome s1 second = Ok RUnit /\
  outcome s1 second <> Revert DuplicateId /\
  publicRadius (location s1 "") = 100 /\
  publicRadius (location (step s1 second) "") = 5 /\
  locationIds (step s1 second) = [""; ""].
Proof.
  cbv zeta. repeat split; try reflexivity.
  intros H. discriminate H.
Qed.

Lemma createLocation_rejects_duplicate_witness :
  "loc1" <> "" /\
  exec initial (Sample.create "loc1" 2500000 12150000 100)
    = (Sample.loc1_created, Ok RUnit) /\
  exec Sample.loc1_verified (Sample.create "loc1" 7 8 9)
    = (Sample.loc1_verified, Revert DuplicateId).
Proof.
  assert (Hid : "loc1" <> "") by (intros H; discriminate H).
  assert (Hex : exec initial (Sample.create "loc1" 2500000 12150000 100)
                = (Sample.loc1_created, Ok RUnit)) by reflexivity.
  split; [exact Hid|]. split; [exact Hex|].
  exact (proj1 (proj2 (createLocation_rejects_duplicate (E := ClearEngine)
           Sample.alice 1700000000 "loc1" 2500000 12150000 Sample.ok Sample.ok
           100 "a place" initial Sample.loc1_created Hid Hex)
         [Sample.verify "loc1" 2500000 12150000]
         Sample.alice 1700000000 7 8 Sample.ok Sample.ok 9 "a place")).
Defined.

Lemma verifyLocation_at_most_once_witness :
  exec Sample.loc1_created (Sample.verify "loc1" 2500000 12150000)
    = (Sample.loc1_verified, Ok RUnit) /\
  exec Sample.loc1_verified (Sample.verify "loc1" 1 2)
    = (Sample.loc1_verified, Revert AlreadyVerified).
Proof.
  assert (Hex : exec Sample.loc1_created (Sample.verify "loc1" 2500000 12150000)
                = (Sample.loc1_verified, Ok RUnit)) by reflexivity.
  split; [exact Hex|].
  exact (proj1 (verifyLocation_at_most_once (E := ClearEngine) "loc1"
           (abi_encode_uint32 2500000) (abi_encode_uint32 12150000) Sample.ok Sample.ok
           Sample.loc1_created Sample.loc1_verified Hex
           [] (abi_encode_uint32 1) (abi_encode_uint32 2) Sample.ok Sample.ok)).
Defined.

Lemma isVerified_monotonic_witness :
  let history := [Sample.create "loc1" 2500000 12150000 100;
                  Sample.verify "loc1" 2500000 12150000] in
  let later := [Sample.create "loc1" 0 0 1; Sample.verify "loc1" 0 0;
                Sample.check "loc1" 0 0; GetLocationData "loc1"] in
  isVerified (location (run initial history) "loc1") = true /\
  isVerified (location (run (run initial history) later) "loc1") = true.
Proof.
  cbv zeta. split; [reflexivity|].
  apply (isVerified_monotonic (E := ClearEngine)). reflexivity.
Defined.

Lemma checkLocationProximity_not_verified_witness :
  locationId (location Sample.loc1_created "loc1") <> "" /\
  isVerified (location Sample.loc1_created "loc1") = false /\
  exec Sample.loc1_created
       (CheckLocationProximity (E := ClearEngine) "loc1" 1 2 Sample.bad Sample.bad)
    = (Sample.loc1_created, Revert NotVerified).
Proof.
  assert (Hid : locationId (location Sample.loc1_created "loc1") <> "")
    by (intros H; discriminate H).
  assert (Hv : isVerified (location Sample.loc1_created "loc1") = false) by reflexivity.
  split; [exact Hid|]. split; [exact Hv|].
  exact (checkLocationProximity_not_verified (E := ClearEngine)
           "loc1" 1 2 Sample.bad Sample.bad Sample.loc1_created Hid Hv).
Defined.

(** C5, beyond 32 bits: center (0, 0), radius 0, claimant at
    (65536, 0).  The squared distance is 2^32, not below 0, and the
    call answers true. *)
Lemma checkLocationProximity_wraps :
  let s := run initial [Sample.create "origin" 0 0 0; Sample.verify "origin" 0 0] in
  isVerified (location s "origin") = true /\
  (decryptedLatitude (location s "origin"), decryptedLongitude (location s "origin")) = (0, 0) /\
  publicRadius (location s "origin") = 0 /\
  ((65536 - 0) ^ 2 + (0 - 0) ^ 2 <=? 0 ^ 2) = false /\
  outcome s (Sample.check "origin" 65536 0) = Ok (RBool true).
Proof. cbv zeta. repeat split; reflexivity. Qed.

Lemma checkLocationProximity_exact_witness :
  outcome Sample.loc1_verified (Sample.check "loc1" (2500000 - 60) (12150000 + 80))
  = Ok (RBool ((- 60) ^ 2 + 80 ^ 2 <=? 100 ^ 2)).
Proof.
  assert (Hid : locationId (location Sample.loc1_verified "loc1") <> "")
    by (intros H; discriminate H).
  assert (Hv : isVerified (location Sample.loc1_verified "loc1") = true) by reflexivity.
  exact (f_equal snd
    (checkLocationProximity_exact (E := ClearEngine)
       "loc1" (2500000 - 60) (12150000 + 80) Sample.ok Sample.ok
       (Some 2499940) (Some 12150080) Sample.loc1_verified
       Hid Hv eq_refl eq_refl eq_refl eq_refl)).
Defined.

(** C6, two overflows that are not reported.  With radius 65536 the
    square of the radius is 2^32 and a claimant one unit from the center
    is classified outside; with radius 0 a claimant 65536 units from the
    center, whose squared distance is 2^32, is classified inside.  In
    both cases the call returns a boolean. *)
Lemma checkLocationProximity_overflow_unreported :
  let wide := run initial [Sample.create "wide" 0 0 65536; Sample.verify "wide" 0 0] in
  let point := run initial [Sample.create "point" 0 0 0; Sample.verify "point" 0 0] in
  uint32_modulus <= 65536 * 65536 /\
  outcome wide (Sample.check "wide" 1 0) = Ok (RBool false) /\
  outcome point (Sample.check "point" 0 65536) = Ok (RBool true).
Proof.
  cbv zeta. split; [apply Z.leb_le; reflexivity|]. split; reflexivity.
Qed.

Lemma checkLocationProximity_modular_witness :
  outcome Sample.loc1_verified (Sample.check "loc1" (2500000 + 65536) 12150000)
  = Ok (RBool true).
Proof.
  assert (Hid : locationId (location Sample.loc1_verified "loc1") <> "")
    by (intros H; discriminate H).
  assert (Hv : isVerified (location Sample.loc1_verified "loc1") = true) by reflexivity.
  exact (f_equal snd
    (checkLocationProximity_modular (E := ClearEngine)
       "loc1" (2500000 + 65536) 12150000 Sample.ok Sample.ok
       (Some 2565536) (Some 12150000) Sample.loc1_verified
       Hid Hv eq_refl eq_refl)).
Defined.

(** C8, the result of [getLocationData]: two locations verified with
    different coordinates give the same result, so the decrypted
    coordinates cannot be read off it. *)
Lemma getLocationData_omits_coordinates :
  let s1 := run initial [Sample.create "loc1" 1 2 100; Sample.verify "loc1" 1 2] in
  let s2 := run initial [Sample.create "loc1" 3 4 100; Sample.verify "loc1" 3 4] in
  outcome (run initial [Sample.create "loc1" 1 2 100]) (Sample.verify "loc1" 1 2) = Ok RUnit /\
  outcome (run initial [Sample.create "loc1" 3 4 100]) (Sample.verify "loc1" 3 4) = Ok RUnit /\
  outcome s1 (GetLocationData "loc1")
    = Ok (RView ("a place", Sample.alice, 1700000000, true, 100)) /\
  outcome s2 (GetLocationData "loc1") = outcome s1 (GetLocationData "loc1") /\
  ~ (exists f : result Return -> Z * Z,
        f (outcome s1 (GetLocationData "loc1")) = (1, 2) /\
        f (outcome s2 (GetLocationData "loc1")) = (3, 4)).
Proof.
  cbv zeta. repeat split; try reflexivity.
  intros [f [H1 H2]].
  change (outcome (run initial [Sample.create "loc1" 3 4 100; Sample.verify "loc1" 3 4])
                  (GetLocationData "loc1"))
    with (outcome (run initial [Sample.create "loc1" 1 2 100; Sample.verify "loc1" 1 2])
                  (GetLocationData "loc1")) in H2.
  rewrite H1 in H2. discriminate H2.
Qed.

Lemma verifyLocation_roundtrip_witness :
  exec Sample.loc1_created (Sample.verify "loc1" 2500000 12150000)
    = (Sample.loc1_verified, Ok RUnit) /\
  exists rec,
    outcome (run Sample.loc1_verified [Sample.create "loc1" 0 0 1])
            (LocationDataOf "loc1") = Ok (RRecord rec) /\
    isVerified rec = true /\
    decryptedLatitude rec = 2500000 /\
    decryptedLongitude rec = 12150000.
Proof.
  assert (Hex : exec Sample.loc1_created (Sample.verify "loc1" 2500000 12150000)
                = (Sample.loc1_verified, Ok RUnit)) by reflexivity.
  split; [exact Hex|].
  exact (proj2 (verifyLocation_roundtrip (E := ClearEngine) "loc1"
           (abi_encode_uint32 2500000) (abi_encode_uint32 12150000) Sample.ok Sample.ok
           2500000 12150000 Sample.loc1_created Sample.loc1_verified
           Hex eq_refl eq_refl [Sample.create "loc1" 0 0 1])).
Defined.

Lemma verifyLocation_atomic_witness :
  exists e,
    exec Sample.loc1_created
         (VerifyLocation (E := ClearEngine) "loc1"
            (abi_encode_uint32 2500000) (abi_encode_uint32 12150000) Sample.ok Sample.bad)
    = (Sample.loc1_created, Revert e).
Proof.
  exact (proj1 (verifyLocation_atomic (E := ClearEngine) "loc1"
                  (abi_encode_uint32 2500000) (abi_encode_uint32 12150000)
                  Sample.ok Sample.bad Sample.loc1_created)
               (or_intror eq_refl)).
Defined.

Lemma empty_id_never_exists_witness :
  let s := run initial [Sample.create "" 1 2 3] in
  locationIds s = [""] /\
  outcome s (Sample.create "" 4 5 6) = Ok RUnit /\
  locationIds (step s (Sample.create "" 4 5 6)) = [""; ""].
Proof.
  cbv zeta. split; [reflexivity|].
  destruct (proj1 (proj2 (empty_id_never_exists (E := ClearEngine)
                            [Sample.create "" 1 2 3]))
              Sample.alice 1700000000 4 5 Sample.ok Sample.ok 6 "a place"
              (Some 4) (Some 5) eq_refl eq_refl eq_refl eq_refl)
    as (Hok & _ & Hids).
  split; [exact Hok | exact Hids].
Defined.

(** ** Coherence of the ledger with its log *)

Section Coherence.

Context {E : FHE.Engine}.

Lemma be_value_from_nonneg (bs : bytes) : forall acc,
  0 <= acc -> 0 <= fold_left (fun a b => a * 256 + Z.of_N (Byte.to_N b)) bs acc.
Proof.
  induction bs as [|b bs IH]; intros acc Hacc; simpl; [assumption|].
  apply IH. pose proof (N2Z.is_nonneg (Byte.to_N b)). lia.
Qed.

Lemma abi_decode_uint32_bound (data : bytes) (v : Z) :
  abi_decode_uint32 data = Ok v -> is_uint32 v.
Proof.
  unfold abi_decode_uint32, is_uint32.
  destruct (length data <? 32)%nat; [discriminate|].
  destruct (be_value (take 32 data) <? uint32_modulus) eqn:Hlt; [|discriminate].
  intros H. injection H as <-. apply Z.ltb_lt in Hlt. split; [|assumption].
  now apply be_value_from_nonneg.
Qed.

Lemma created_ids_snoc evs ev :
  created_ids (evs ++ [ev]) = created_ids evs ++ created_ids [ev].
Proof. unfold created_ids. apply omap_app. Qed.

Lemma verified_ids_snoc evs ev :
  verified_ids (evs ++ [ev]) = verified_ids evs ++ verified_ids [ev].
Proof. unfold verified_ids. apply omap_app. Qed.

Lemma verified_ids_elem id evs :
  id ∈ verified_ids evs -> exists lat lng, LocationVerified id lat lng ∈ evs.
Proof.
  unfold verified_ids. rewrite list_elem_of_omap. intros [ev [Hin Hev]].
  destruct ev as [? ?|id' lat lng]; [discriminate|].
  injection Hev as ->. now exists lat, lng.
Qed.

Lemma published_mono r ops more : published r ops -> published r (ops ++ more).
Proof.
  unfold published. intros (H1 & H2 & H3 & H4).
  repeat split; apply elem_of_app; now left.
Qed.

Lemma coherent_initial : coherent initial.
Proof.
  split.
  - apply consistent_initial.
  - reflexivity.
  - intros k Hk. contradiction Hk. unfold location, initial; simpl.
    now rewrite lookup_empty.
  - intros k Hk. simpl in Hk. now apply elem_of_nil in Hk.
  - apply NoDup_nil_2.
  - intros id lat lng Hin. simpl in Hin. now apply elem_of_nil in Hin.
  - intros id. unfold location, initial; simpl. rewrite lookup_empty; simpl. discriminate.
  - apply NoDup_nil_2.
  - intros k _. unfold location, initial; simpl. now rewrite lookup_empty.
  - intros k. unfold location, initial, is_uint32; simpl. rewrite lookup_empty; simpl.
    unfold uint32_modulus. lia.
  - intros k Hk. contradiction Hk. unfold location, initial; simpl.
    now rewrite lookup_empty.
Qed.

Lemma coherent_created snd ts id lat lng r d s :
  coherent s ->
  locationId (location s id) = "" ->
  consistent (created snd ts id lat lng r d s) ->
  coherent (created snd ts id lat lng r d s).
Proof.
  intros H Hfree Hcons.
  assert (Hother : forall k, k <> id ->
            location (created snd ts id lat lng r d s) k = location s k)
    by (intros k Hk; apply location_created_ne; congruence).
  assert (Hnew : location (created snd ts id lat lng r d s) id
                 = new_location snd ts id lat lng r d)
    by apply location_created_eq.
  assert (Hver : forall k, isVerified (location s k) = true -> k <> id).
  { intros k Hv ->. apply (coh_consistent s H) in Hv. contradiction. }
  split.
  - exact Hcons.
  - simpl. rewrite created_ids_snoc, (coh_created s H). reflexivity.
  - intros k Hk. simpl. apply elem_of_app.
    destruct (decide (k = id)) as [->|Hne].
    + right. now apply list_elem_of_singleton.
    + left. apply (coh_listed s H). now rewrite <- Hother.
  - intros k Hk Hk0. simpl in Hk. apply elem_of_app in Hk.
    destruct (decide (k = id)) as [->|Hne].
    + now rewrite Hnew.
    + rewrite Hother by assumption. apply (coh_exists s H); [|assumption].
      destruct Hk as [Hk|Hk]; [assumption|].
      apply list_elem_of_singleton in Hk. contradiction.
  - simpl. unfold nonempty_ids. rewrite filter_app. apply NoDup_app.
    split; [apply (coh_unique s H)|]. split.
    + intros k Hk Hk'. apply list_elem_of_filter in Hk as [Hk0 Hk].
      apply list_elem_of_filter in Hk' as [_ Hk'].
      apply list_elem_of_singleton in Hk' as ->.
      pose proof (coh_exists s H id Hk Hk0) as Hid. congruence.
    + apply NoDup_filter, NoDup_singleton.
  - intros id' lat' lng' Hin. simpl in Hin. apply elem_of_app in Hin as [Hin|Hin].
    + pose proof (coh_event_record s H id' lat' lng' Hin) as (Hv & Hla & Hlo).
      rewrite Hother by now apply Hver. now repeat split.
    + apply list_elem_of_singleton in Hin. discriminate.
  - intros k Hv. simpl. apply elem_of_app. left.
    destruct (decide (k = id)) as [->|Hne].
    + rewrite Hnew in Hv. discriminate.
    + rewrite Hother in * by assumption. now apply (coh_record_event s H).
  - simpl. rewrite verified_ids_snoc. simpl. rewrite app_nil_r.
    apply (coh_verified_once s H).
  - intros k Hv. destruct (decide (k = id)) as [->|Hne].
    + now rewrite Hnew.
    + rewrite Hother in * by assumption. now apply (coh_pending s H).
  - intros k. destruct (decide (k = id)) as [->|Hne].
    + rewrite Hnew. unfold is_uint32, uint32_modulus; simpl. lia.
    + rewrite Hother by assumption. apply (coh_uint32 s H).
  - intros k Hk. destruct (decide (k = id)) as [->|Hne].
    + rewrite Hnew. unfold published; simpl.
      repeat split; rewrite !elem_of_app, !list_elem_of_singleton; tauto.
    + rewrite Hother in * by assumption. simpl.
      rewrite <- !app_assoc. apply published_mono. now apply (coh_published s H).
Qed.

Lemma coherent_verified id lat lng s :
  coherent s ->
  locationId (location s id) <> "" ->
  isVerified (location s id) = false ->
  is_uint32 lat -> is_uint32 lng ->
  consistent (verified id lat lng s) ->
  coherent (verified id lat lng s).
Proof.
  intros H Hex Hnv Hlat Hlng Hcons.
  assert (Hother : forall k, k <> id -> location (verified id lat lng s) k = location s k)
    by (intros k Hk; apply location_verified_ne; congruence).
  assert (Hnew : location (verified id lat lng s) id
                 = verified_location lat lng (location s id))
    by apply location_verified_eq.
  split.
  - exact Hcons.
  - simpl. rewrite created_ids_snoc, (coh_created s H). simpl. now rewrite app_nil_r.
  - intros k Hk. simpl. apply (coh_listed s H).
    destruct (decide (k = id)) as [->|Hne]; [assumption|]. now rewrite <- Hother.
  - intros k Hk Hk0. simpl in Hk.
    destruct (decide (k = id)) as [->|Hne].
    + rewrite Hnew. simpl. now apply (coh_exists s H).
    + rewrite Hother by assumption. now apply (coh_exists s H).
  - apply (coh_unique s H).
  - intros id' lat' lng' Hin. simpl in Hin. apply elem_of_app in Hin as [Hin|Hin].
    + pose proof (coh_event_record s H id' lat' lng' Hin) as (Hv & Hla & Hlo).
      assert (id' <> id) by congruence.
      rewrite Hother by assumption. now repeat split.
    + apply list_elem_of_singleton in Hin. injection Hin as -> -> ->.
      rewrite Hnew. now repeat split.
  - intros k Hv. simpl. apply elem_of_app.
    destruct (decide (k = id)) as [->|Hne].
    + right. rewrite Hnew. simpl. now apply list_elem_of_singleton.
    + left. rewrite Hother in * by assumption. now apply (coh_record_event s H).
  - simpl. rewrite verified_ids_snoc. simpl. apply NoDup_app.
    split; [apply (coh_verified_once s H)|]. split; [|apply NoDup_singleton].
    intros k Hk Hk'. apply list_elem_of_singleton in Hk' as ->.
    apply verified_ids_elem in Hk as (lat' & lng' & Hin).
    apply (coh_event_record s H) in Hin as (Hv & _). congruence.
  - intros k Hv. destruct (decide (k = id)) as [->|Hne].
    + rewrite Hnew in Hv. discriminate.
    + rewrite Hother in * by assumption. now apply (coh_pending s H).
  - intros k. destruct (decide (k = id)) as [->|Hne].
    + rewrite Hnew. simpl. now split.
    + rewrite Hother by assumption. apply (coh_uint32 s H).
  - intros k Hk. simpl. destruct (decide (k = id)) as [->|Hne].
    + rewrite Hnew. now apply (coh_published s H id).
    + rewrite Hother in * by assumption. now apply (coh_published s H).
Qed.

Lemma coherent_step s c : coherent s -> coherent (step s c).
Proof.
  intros H.
  pose proof (consistent_step s c (coh_consistent s H)) as Hcons.
  pose proof (step_effect s c) as He.
  set (s' := step s c) in *. clearbody s'.
  destruct He as [c | ? ? id ? ? ? ? ? ? ? ? Hid | id ? ? ? ? lat lng Hex Hnv Dlat Dlng].
  - exact H.
  - now apply coherent_created.
  - apply coherent_verified; try assumption.
    + now apply abi_decode_uint32_bound in Dlat.
    + now apply abi_decode_uint32_bound in Dlng.
Qed.

Lemma coherent_run cs : forall s, coherent s -> coherent (run s cs).
Proof.
  induction cs as [|c cs IH]; intros s Hs; [assumption|].
  rewrite run_cons. apply IH. now apply coherent_step.
Qed.

Lemma history_coherent cs : coherent (run initial cs).
Proof. apply coherent_run, coherent_initial. Qed.

End Coherence.

(** ** Further properties of the calls *)

Section Calls.

Context {E : FHE.Engine}.

(** X1.  [createLocation] succeeds exactly when the slot of the id
    holds the empty id and both external ciphertexts are accepted with
    their proofs and are initialized handles. *)
Theorem createLocation_succeeds_iff snd ts id la lo pla plo r d (s : State) :
  outcome s (CreateLocation snd ts id la lo pla plo r d) = Ok RUnit <->
  locationId (location s id) = "" /\
  exists lat lng,
    FHE.fromExternal la pla = Some lat /\ FHE.isInitialized lat = true /\
    FHE.fromExternal lo plo = Some lng /\ FHE.isInitialized lng = true.
Proof.
  unfold outcome. split.
  - intros H.
    destruct (exec s (CreateLocation snd ts id la lo pla plo r d)) as [s1 res] eqn:Hex.
    simpl in H. subst res.
    apply createLocation_ok in Hex as (Hid & lat & lng & H1 & H2 & H3 & H4 & _).
    split; [assumption|]. now exists lat, lng.
  - intros (Hid & lat & lng & H1 & H2 & H3 & H4).
    rewrite exec_createLocation, createLocation_eq, Hid. simpl.
    rewrite H1, H2. simpl. rewrite H3, H4. reflexivity.
Qed.

(** X2.  A successful [createLocation] writes the slot of its id only:
    every other record is as before, the log grows by the one event
    [LocationCreated(id, msg.sender)], and the access-control list by
    [allowThis] and [makePubliclyDecryptable] for the two stored
    handles. *)
Theorem createLocation_frame snd ts id la lo pla plo r d (s s1 : State) :
  exec s (CreateLocation snd ts id la lo pla plo r d) = (s1, Ok RUnit) ->
  (forall k, k <> id -> location s1 k = location s k) /\
  events s1 = events s ++ [LocationCreated id snd] /\
  acl s1 = acl s ++
    [AllowThis (FHE.toBytes32 (encryptedLatitude (location s1 id)));
     AllowThis (FHE.toBytes32 (encryptedLongitude (location s1 id)));
     MakePubliclyDecryptable (FHE.toBytes32 (encryptedLatitude (location s1 id)));
     MakePubliclyDecryptable (FHE.toBytes32 (encryptedLongitude (location s1 id)))].
Proof.
  intros Hex.
  apply createLocation_ok in Hex as (_ & lat & lng & _ & _ & _ & _ & ->).
  split; [|split].
  - intros k Hk. apply location_created_ne. congruence.
  - reflexivity.
  - rewrite location_created_eq. simpl. now rewrite <- !app_assoc.
Qed.

(** X3.  [verifyLocation] succeeds exactly when the location exists,
    is not verified, both signature checks over the two stored handles
    pass, and both clear values decode as [uint32]. *)
Theorem verifyLocation_succeeds_iff id cla clo pla plo (s : State) :
  let r := location s id in
  let cts := [FHE.toBytes32 (encryptedLatitude r); FHE.toBytes32 (encryptedLongitude r)] in
  outcome s (VerifyLocation id cla clo pla plo) = Ok RUnit <->
  locationId r <> "" /\ isVerified r = false /\
  FHE.checkSignatures cts cla pla = true /\
  FHE.checkSignatures cts clo plo = true /\
  exists lat lng, abi_decode_uint32 cla = Ok lat /\ abi_decode_uint32 clo = Ok lng.
Proof.
  intros r cts. unfold outcome.
  rewrite exec_verifyLocation, verifyLocation_eq; cbv zeta. fold r cts.
  destruct (0 <? bytes_length (locationId r))%nat eqn:Hid; simpl.
  - apply bytes_length_pos in Hid.
    destruct (isVerified r); simpl.
    { split; [discriminate | intros (_ & Hv & _); discriminate]. }
    destruct (FHE.checkSignatures cts cla pla); simpl.
    2:{ split; [discriminate | intros (_ & _ & Hc & _); discriminate]. }
    destruct (FHE.checkSignatures cts clo plo); simpl.
    2:{ split; [discriminate | intros (_ & _ & _ & Hc & _); discriminate]. }
    destruct (abi_decode_uint32 cla) as [lat|]; simpl.
    2:{ split; [discriminate | intros (_ & _ & _ & _ & ? & ? & Hd & _); discriminate]. }
    destruct (abi_decode_uint32 clo) as [lng|]; simpl.
    2:{ split; [discriminate | intros (_ & _ & _ & _ & ? & ? & _ & Hd); discriminate]. }
    split; [|reflexivity]. intros _. repeat split; try assumption.
    now exists lat, lng.
  - apply Nat.ltb_ge in Hid.
    split; [discriminate|]. intros (Hne & _). exfalso. apply Hne.
    destruct (locationId r); [reflexivity | simpl in Hid; lia].
Qed.

(** X4.  A successful [verifyLocation] leaves [locationIds] and the
    access-control list as they are and logs the one event
    [LocationVerified(id, decryptedLatitude, decryptedLongitude)], with
    the values it has just stored. *)
Theorem verifyLocation_effect id cla clo pla plo (s s1 : State) :
  exec s (VerifyLocation id cla clo pla plo) = (s1, Ok RUnit) ->
  locationIds s1 = locationIds s /\
  acl s1 = acl s /\
  events s1 = events s ++
    [LocationVerified id (decryptedLatitude (location s1 id))
                         (decryptedLongitude (location s1 id))].
Proof.
  intros Hex.
  apply verifyLocation_ok in Hex as (_ & _ & lat & lng & _ & _ & ->).
  rewrite location_verified_eq. now repeat split.
Qed.

(** X5.  A clear value shorter than one 32-byte word is refused:
    whatever the state and the proofs, [verifyLocation] reverts and
    changes nothing. *)
Theorem verifyLocation_short_clear_value id cla clo pla plo (s : State) :
  (length cla < 32)%nat \/ (length clo < 32)%nat ->
  exists e, exec s (VerifyLocation id cla clo pla plo) = (s, Revert e).
Proof.
  intros Hshort. rewrite exec_verifyLocation, verifyLocation_eq; cbv zeta.
  destruct (negb _); [now eexists|].
  destruct (isVerified _); [now eexists|].
  destruct (negb _); [now eexists|].
  destruct (negb _); [now eexists|].
  unfold abi_decode_uint32.
  destruct (length cla <? 32)%nat eqn:Hla; [now eexists|].
  destruct (be_value (take 32 cla) <? uint32_modulus); [|now eexists].
  destruct (length clo <? 32)%nat eqn:Hlo; [now eexists|].
  apply Nat.ltb_ge in Hla, Hlo. lia.
Qed.

(** X6.  A claimant whose ciphertexts encrypt the values of the stored
    ciphertexts is inside for every radius whose square fits 256 bits,
    radius 0 included. *)
Theorem checkLocationProximity_at_center id la lo pla plo userLat userLng (s : State) :
  let r := location s id in
  locationId r <> "" ->
  isVerified r = true ->
  FHE.fromExternal la pla = Some userLat ->
  FHE.fromExternal lo plo = Some userLng ->
  FHE.clear userLat = FHE.clear (encryptedLatitude r) ->
  FHE.clear userLng = FHE.clear (encryptedLongitude r) ->
  publicRadius r * publicRadius r < uint256_modulus ->
  exec s (CheckLocationProximity id la lo pla plo) = (s, Ok (RBool true)).
Proof.
  intros r Hid Hv Hlat Hlng Elat Elng Hr.
  rewrite exec_checkLocationProximity.
  rewrite (checkLocationProximity_value id la lo pla plo userLat userLng s Hid Hv Hlat Hlng).
  fold r. rewrite Elat, Elng, !Z.sub_diag. unfold checked_mul.
  apply Z.ltb_lt in Hr. rewrite Hr. simpl.
  rewrite Z.mod_0_l by (unfold uint32_modulus; lia).
  assert (0 <= (publicRadius r * publicRadius r) mod uint32_modulus)
    by (apply Z.mod_pos_bound; unfold uint32_modulus; lia).
  apply Z.leb_le in H. now rewrite H.
Qed.

(** X7.  [createLocation] does not bound the radius, and the square of
    a radius of 2^128 or more does not fit 256 bits: on such a record
    [checkLocationProximity] returns no boolean, for any input. *)
Theorem checkLocationProximity_huge_radius id la lo pla plo (s : State) :
  2 ^ 128 <= publicRadius (location s id) ->
  exists e, exec s (CheckLocationProximity id la lo pla plo) = (s, Revert e).
Proof.
  intros Hr. rewrite exec_checkLocationProximity, checkLocationProximity_eq; cbv zeta.
  destruct (negb _); [now eexists|].
  destruct (negb _); [now eexists|].
  destruct (FHE.fromExternal la pla); [|now eexists].
  destruct (FHE.fromExternal lo plo); [|now eexists].
  unfold checked_mul.
  destruct (_ * _ <? uint256_modulus) eqn:Hc; [|now eexists].
  apply Z.ltb_lt in Hc. exfalso.
  assert (H0 : 0 <= 2 ^ 128) by (apply Z.pow_nonneg; lia).
  pose proof (Z.mul_le_mono_nonneg _ _ _ _ H0 Hr H0 Hr) as Hsq.
  assert (Heq : 2 ^ 128 * 2 ^ 128 = uint256_modulus) by reflexivity.
  lia.
Qed.

(** X8.  What [createLocation] has stored under a non-empty id is what
    [getLocationData] returns at every later point: the description,
    the sender as creator, the block timestamp and the radius of the
    creation. *)
Theorem getLocationData_after_create snd ts id la lo pla plo r d (s s1 : State) :
  id <> "" ->
  exec s (CreateLocation snd ts id la lo pla plo r d) = (s1, Ok RUnit) ->
  forall later,
    exists v, outcome (run s1 later) (GetLocationData id) = Ok (RView (d, snd, ts, v, r)).
Proof.
  intros Hid Hex later.
  apply createLocation_ok in Hex as (_ & lat & lng & _ & _ & _ & _ & ->).
  assert (Hex : locationId (location (created snd ts id lat lng r d s) id) <> "")
    by now rewrite location_created_eq.
  pose proof (run_registration later _ _ Hex) as Hreg.
  pose proof (run_exists later _ _ Hex) as Hex'.
  rewrite location_created_eq in Hreg. unfold registration in Hreg. simpl in Hreg.
  injection Hreg as _ _ _ Hr Hd Hc Ht.
  unfold outcome. rewrite exec_getLocationData, getLocationData_eq; cbv zeta.
  apply bytes_length_pos in Hex'. rewrite Hex'. simpl.
  rewrite Hr, Hd, Hc, Ht. now eexists.
Qed.



Lemma step_log s c :
  events s `prefix_of` events (step s c) /\ acl s `prefix_of` acl (step s c).
Proof.
  destruct (step_effect s c); simpl.
  - split; reflexivity.
  - split; [apply prefix_app_r; reflexivity|].
    rewrite <- !app_assoc. apply prefix_app_r. reflexivity.
  - split; [apply prefix_app_r|]; reflexivity.
Qed.

(** X10.  The event log and the list of access-control calls are
    append-only: what they hold at one point is a prefix of what they
    hold after any further calls. *)
Theorem log_append_only (later : list Call) (s : State) :
  events s `prefix_of` events (run s later) /\ acl s `prefix_of` acl (run s later).
Proof.
  revert s. induction later as [|c cs IH]; intros s.
  - split; reflexivity.
  - rewrite run_cons. destruct (step_log s c) as [He Ha].
    destruct (IH (step s c)) as [He' Ha'].
    split; etransitivity; eassumption.
Qed.

End Calls.

(** ** Further properties of histories *)

Section Ledger.

Context {E : FHE.Engine}.

(** X11.  In every history the ids of the [LocationCreated] events, in
    the order of the log, are the contents of [locationIds]. *)
Theorem created_events_match_ids (history : list Call) :
  created_ids (events (run initial history)) = locationIds (run initial history).
Proof. apply (coh_created _ (history_coherent history)). Qed.

(** X12.  In every history the log and the records agree on
    verification: the log holds [LocationVerified(id, lat, lng)]
    exactly when the record of [id] is verified with decrypted
    coordinates [lat] and [lng]. *)
Theorem verified_event_iff_record (history : list Call) id lat lng :
  let s := run initial history in
  LocationVerified id lat lng ∈ events s <->
  isVerified (location s id) = true /\
  decryptedLatitude (location s id) = lat /\
  decryptedLongitude (location s id) = lng.
Proof.
  intros s. pose proof (history_coherent history) as H. fold s in H. split.
  - apply (coh_event_record s H).
  - intros (Hv & <- & <-). now apply (coh_record_event s H).
Qed.

(** X13.  In every history the log holds at most one [LocationVerified]
    event for an id. *)
Theorem verified_events_unique (history : list Call) :
  NoDup (verified_ids (events (run initial history))).
Proof. apply (coh_verified_once _ (history_coherent history)). Qed.

(** X14.  In every history the existing locations are the non-empty
    entries of [locationIds]: the slot of a key holds a non-empty id
    exactly when the key is non-empty and listed, and then the id it
    holds is the key. *)
Theorem existing_iff_listed (history : list Call) (k : string) :
  let s := run initial history in
  (locationId (location s k) <> "" <-> k ∈ locationIds s /\ k <> "") /\
  (locationId (location s k) = "" \/ locationId (location s k) = k).
Proof.
  intros s. pose proof (history_coherent history) as H. fold s in H.
  destruct (coh_consistent s H k) as [Hkey _].
  split; [|exact Hkey]. split.
  - intros Hk. split; [now apply (coh_listed s H)|].
    destruct Hkey as [Hkey|Hkey]; congruence.
  - intros [Hin Hk]. rewrite (coh_exists s H k Hin Hk). exact Hk.
Qed.

(** X15.  In every history a non-empty id occurs at most once in
    [locationIds]. *)
Theorem nonempty_ids_unique (history : list Call) :
  NoDup (nonempty_ids (locationIds (run initial history))).
Proof. apply (coh_unique _ (history_coherent history)). Qed.

(** X16.  In every history [getLocationData] succeeds on every
    non-empty id that [getAllLocationIds] returns. *)
Theorem listed_ids_readable (history : list Call) (ids : list string) (k : string) :
  outcome (run initial history) GetAllLocationIds = Ok (RIds ids) ->
  k ∈ ids ->
  k <> "" ->
  exists v, outcome (run initial history) (GetLocationData k) = Ok (RView v).
Proof.
  intros Hids Hin Hk. pose proof (history_coherent history) as H.
  unfold outcome in Hids. rewrite exec_getAllLocationIds in Hids. simpl in Hids.
  injection Hids as <-.
  pose proof (coh_exists _ H k Hin Hk) as Hex.
  unfold outcome. rewrite exec_getLocationData, getLocationData_eq; cbv zeta.
  assert (Hne : locationId (location (run initial history) k) <> "") by congruence.
  apply bytes_length_pos in Hne. rewrite Hne. simpl. now eexists.
Qed.

(** X17.  In every history the decrypted coordinates of a record that
    is not verified are zero. *)
Theorem pending_coordinates_zero (history : list Call) (k : string) :
  isVerified (location (run initial history) k) = false ->
  decryptedLatitude (location (run initial history) k) = 0 /\
  decryptedLongitude (location (run initial history) k) = 0.
Proof. apply (coh_pending _ (history_coherent history)). Qed.

(** X18.  In every history the decrypted coordinates of every record
    are [uint32] values. *)
Theorem decrypted_coordinates_uint32 (history : list Call) (k : string) :
  0 <= decryptedLatitude (location (run initial history) k) < 2 ^ 32 /\
  0 <= decryptedLongitude (location (run initial history) k) < 2 ^ 32.
Proof. apply (coh_uint32 _ (history_coherent history)). Qed.

(** X19.  In every history the two ciphertext handles of every
    existing location have been passed to [FHE.allowThis] and to
    [FHE.makePubliclyDecryptable]. *)
Theorem stored_ciphertexts_published (history : list Call) (k : string) :
  let s := run initial history in
  locationId (location s k) <> "" ->
  AllowThis (FHE.toBytes32 (encryptedLatitude (location s k))) ∈ acl s /\
  AllowThis (FHE.toBytes32 (encryptedLongitude (location s k))) ∈ acl s /\
  MakePubliclyDecryptable (FHE.toBytes32 (encryptedLatitude (location s k))) ∈ acl s /\
  MakePubliclyDecryptable (FHE.toBytes32 (encryptedLongitude (location s k))) ∈ acl s.
Proof. intros s. apply (coh_published _ (history_coherent history)). Qed.

Lemma unlisted_step s c :
  coherent s ->
  (forall k, k ∉ locationIds s -> locationData s !! k = None) ->
  forall k, k ∉ locationIds (step s c) -> locationData (step s c) !! k = None.
Proof.
  intros H Hs k.
  destruct (step_effect s c) as [c | ? ? id ? ? ? ? ? ? ? ? Hid | id ? ? ? ? lat lng Hex].
  - apply Hs.
  - simpl. intros Hk. rewrite elem_of_app, list_elem_of_singleton in Hk.
    rewrite lookup_insert_ne by (intros ->; tauto). apply Hs. tauto.
  - simpl. intros Hk.
    rewrite lookup_insert_ne; [now apply Hs|].
    intros ->. apply Hk. now apply (coh_listed s H).
Qed.

Lemma unlisted_run cs : forall s,
  coherent s ->
  (forall k, k ∉ locationIds s -> locationData s !! k = None) ->
  forall k, k ∉ locationIds (run s cs) -> locationData (run s cs) !! k = None.
Proof.
  induction cs as [|c cs IH]; intros s H Hs; [exact Hs|].
  rewrite run_cons. apply IH; [now apply coherent_step | now apply unlisted_step].
Qed.

(** X20.  On a key that no [createLocation] has registered, in every
    history: [verifyLocation], [checkLocationProximity] and
    [getLocationData] revert with "Location does not exist", while the
    getter [locationData(key)] does not revert and returns the all-zero
    record. *)
Theorem unregistered_key (history : list Call) (k : string) :
  let s := run initial history in
  k ∉ locationIds s ->
  (forall cla clo pla plo,
      outcome s (VerifyLocation k cla clo pla plo) = Revert NotFound) /\
  (forall la lo pla plo,
      outcome s (CheckLocationProximity k la lo pla plo) = Revert NotFound) /\
  outcome s (GetLocationData k) = Revert NotFound /\
  outcome s (LocationDataOf k) = Ok (RRecord zeroLocation).
Proof.
  intros s Hk.
  assert (Hz : location s k = zeroLocation).
  { assert (Hnone : locationData s !! k = None).
    { apply (unlisted_run history initial coherent_initial); [|exact Hk].
      intros k' _. apply lookup_empty. }
    unfold location. now rewrite Hnone. }
  unfold outcome. split; [|split; [|split]].
  - intros cla clo pla plo.
    rewrite exec_verifyLocation, verifyLocation_eq; cbv zeta. now rewrite Hz.
  - intros la lo pla plo.
    rewrite exec_checkLocationProximity, checkLocationProximity_eq; cbv zeta.
    now rewrite Hz.
  - rewrite exec_getLocationData, getLocationData_eq; cbv zeta. now rewrite Hz.
  - rewrite exec_locationData_getter. simpl. now rewrite Hz.
Qed.

End Ledger.

(** ** The further properties on concrete histories *)

Lemma createLocation_frame_witness :
  let call := Sample.create "loc2" 1 2 3 in
  exec Sample.loc1_verified call = (step Sample.loc1_verified call, Ok RUnit) /\
  location (step Sample.loc1_verified call) "loc1" = location Sample.loc1_verified "loc1".
Proof.
  cbv zeta.
  assert (Hex : exec Sample.loc1_verified (Sample.create "loc2" 1 2 3)
                = (step Sample.loc1_verified (Sample.create "loc2" 1 2 3), Ok RUnit))
    by reflexivity.
  assert (Hne : "loc1" <> "loc2") by (intros H; discriminate H).
  split; [exact Hex|].
  exact (proj1 (createLocation_frame (E := ClearEngine)
                  Sample.alice 1700000000 "loc2" 1 2 Sample.ok Sample.ok 3 "a place"
                  Sample.loc1_verified _ Hex) "loc1" Hne).
Defined.

Lemma verifyLocation_effect_witness :
  exec Sample.loc1_created (Sample.verify "loc1" 2500000 12150000)
    = (Sample.loc1_verified, Ok RUnit) /\
  events Sample.loc1_verified
    = events Sample.loc1_created ++ [LocationVerified "loc1" 2500000 12150000].
Proof.
  assert (Hex : exec Sample.loc1_created (Sample.verify "loc1" 2500000 12150000)
                = (Sample.loc1_verified, Ok RUnit)) by reflexivity.
  split; [exact Hex|].
  exact (proj2 (proj2 (verifyLocation_effect (E := ClearEngine) "loc1"
           (abi_encode_uint32 2500000) (abi_encode_uint32 12150000) Sample.ok Sample.ok
           Sample.loc1_created Sample.loc1_verified Hex))).
Defined.

Lemma verifyLocation_short_clear_value_witness :
  exists e,
    exec Sample.loc1_created
         (VerifyLocation (E := ClearEngine) "loc1" [x00; x01]
            (abi_encode_uint32 12150000) Sample.ok Sample.ok)
    = (Sample.loc1_created, Revert e).
Proof.
  assert (Hshort : (length [x00; x01] < 32)%nat \/
                   (length (abi_encode_uint32 12150000) < 32)%nat)
    by (left; simpl; lia).
  exact (verifyLocation_short_clear_value (E := ClearEngine) "loc1" [x00; x01]
           (abi_encode_uint32 12150000) Sample.ok Sample.ok Sample.loc1_created Hshort).
Defined.

Lemma checkLocationProximity_at_center_witness :
  exec Sample.loc1_verified (Sample.check "loc1" 2500000 12150000)
  = (Sample.loc1_verified, Ok (RBool true)).
Proof.
  assert (Hid : locationId (location Sample.loc1_verified "loc1") <> "")
    by (intros H; discriminate H).
  exact (checkLocationProximity_at_center (E := ClearEngine)
           "loc1" 2500000 12150000 Sample.ok Sample.ok
           (Some 2500000) (Some 12150000) Sample.loc1_verified
           Hid eq_refl eq_refl eq_refl eq_refl eq_refl eq_refl).
Defined.

Lemma checkLocationProximity_huge_radius_witness :
  let s := run initial [Sample.create "huge" 0 0 (2 ^ 128); Sample.verify "huge" 0 0] in
  isVerified (location s "huge") = true /\
  exists e, exec s (Sample.check "huge" 0 0) = (s, Revert e).
Proof.
  cbv zeta. split; [reflexivity|].
  assert (Hr : 2 ^ 128 <= publicRadius
                 (location (run initial [Sample.create "huge" 0 0 (2 ^ 128);
                                         Sample.verify "huge" 0 0]) "huge"))
    by (apply Z.leb_le; reflexivity).
  exact (checkLocationProximity_huge_radius (E := ClearEngine)
           "huge" 0 0 Sample.ok Sample.ok _ Hr).
Defined.

Lemma getLocationData_after_create_witness :
  exists v,
    outcome Sample.loc1_verified (GetLocationData "loc1")
    = Ok (RView ("a place", Sample.alice, 1700000000, v, 100)).
Proof.
  assert (Hid : "loc1" <> "") by (intros H; discriminate H).
  assert (Hex : exec initial (Sample.create "loc1" 2500000 12150000 100)
                = (Sample.loc1_created, Ok RUnit)) by reflexivity.
  exact (getLocationData_after_create (E := ClearEngine)
           Sample.alice 1700000000 "loc1" 2500000 12150000 Sample.ok Sample.ok
           100 "a place" initial Sample.loc1_created Hid Hex
           [Sample.verify "loc1" 2500000 12150000]).
Defined.

Lemma listed_ids_readable_witness :
  let history := [Sample.create "loc1" 2500000 12150000 100; Sample.create "" 1 2 3] in
  outcome (run initial history) GetAllLocationIds = Ok (RIds ["loc1"; ""]) /\
  exists v, outcome (run initial history) (GetLocationData "loc1") = Ok (RView v).
Proof.
  cbv zeta. split; [reflexivity|].
  assert (Hin : "loc1" ∈ ["loc1"; ""]) by constructor.
  assert (Hne : "loc1" <> "") by (intros H; discriminate H).
  exact (listed_ids_readable (E := ClearEngine)
           [Sample.create "loc1" 2500000 12150000 100; Sample.create "" 1 2 3]
           ["loc1"; ""] "loc1" eq_refl Hin Hne).
Defined.

Lemma pending_coordinates_zero_witness :
  isVerified (location Sample.loc1_created "loc1") = false /\
  decryptedLatitude (location Sample.loc1_created "loc1") = 0 /\
  decryptedLongitude (location Sample.loc1_created "loc1") = 0.
Proof.
  split; [reflexivity|].
  exact (pending_coordinates_zero (E := ClearEngine)
           [Sample.create "loc1" 2500000 12150000 100] "loc1" eq_refl).
Defined.

Lemma stored_ciphertexts_published_witness :
  locationId (location Sample.loc1_verified "loc1") <> "" /\
  MakePubliclyDecryptable (Clear.toBytes32 (Some 2500000)) ∈ acl Sample.loc1_verified.
Proof.
  assert (Hid : locationId (location Sample.loc1_verified "loc1") <> "")
    by (intros H; discriminate H).
  split; [exact Hid|].
  exact (proj1 (proj2 (proj2 (stored_ciphertexts_published (E := ClearEngine)
           [Sample.create "loc1" 2500000 12150000 100;
            Sample.verify "loc1" 2500000 12150000] "loc1" Hid)))).
Defined.

Lemma unregistered_key_witness :
  ("nowhere" ∉ locationIds Sample.loc1_verified) /\
  outcome Sample.loc1_verified (GetLocationData "nowhere") = Revert NotFound /\
  outcome Sample.loc1_verified (LocationDataOf "nowhere") = Ok (RRecord zeroLocation).
Proof.
  assert (Hk : "nowhere" ∉ locationIds Sample.loc1_verified).
  { change (locationIds Sample.loc1_verified) with ["loc1"].
    intros H. apply list_elem_of_singleton in H. discriminate H. }
  split; [exact Hk|].
  exact (proj2 (proj2 (unregistered_key (E := ClearEngine)
           [Sample.create "loc1" 2500000 12150000 100;
            Sample.verify "loc1" 2500000 12150000] "nowhere" Hk))).
Defined.
